(** * Overwatch: a shallow embedding of the security engine

    JavaScript strings are modelled as lists of Unicode code points
    ([list Z]); JavaScript numbers that the code only uses as integers
    (counters, timestamps, lengths) are modelled as [Z]. *)

From Stdlib Require Import ZArith List String Ascii Bool Lia.
From Stdlib Require Import Permutation Sorted.
Import ListNotations.
Open Scope Z_scope.
Set Warnings "-register-all".

(* ------------------------------------------------------------------ *)
(** ** JavaScript strings *)

Definition jstr := list Z.

(** ASCII literal to a code-point string. *)
Fixpoint s2j (s : string) : jstr :=
  match s with
  | EmptyString => []
  | String c r => Z.of_nat (nat_of_ascii c) :: s2j r
  end.

Fixpoint jstr_eqb (a b : jstr) : bool :=
  match a, b with
  | [], [] => true
  | x :: a', y :: b' => (x =? y) && jstr_eqb a' b'
  | _, _ => false
  end.

(** [String.prototype.startsWith] *)
Fixpoint starts_with (s prefix : jstr) : bool :=
  match prefix, s with
  | [], _ => true
  | p :: prefix', c :: s' => (p =? c) && starts_with s' prefix'
  | _ :: _, [] => false
  end.

(** [String.prototype.includes] *)
Fixpoint includes (s sub : jstr) : bool :=
  starts_with s sub ||
  match s with
  | [] => false
  | _ :: s' => includes s' sub
  end.

(** [s.length]: the number of UTF-16 code units. *)
Definition utf16_len (s : jstr) : Z :=
  fold_right (fun c n => (if 65535 <? c then 2 else 1) + n) 0 s.

(** [TextEncoder.encode] / [Buffer.from(s, 'utf8')]: UTF-8 bytes; a lone
    surrogate is encoded as U+FFFD. *)
Definition utf8_char (c : Z) : list Z :=
  if c <? 128 then [c]
  else if c <? 2048 then [192 + c / 64; 128 + c mod 64]
  else if (55296 <=? c) && (c <=? 57343) then [239; 191; 189]
  else if c <? 65536 then
    [224 + c / 4096; 128 + (c / 64) mod 64; 128 + c mod 64]
  else [240 + c / 262144; 128 + (c / 4096) mod 64;
        128 + (c / 64) mod 64; 128 + c mod 64].

Definition utf8_encode (s : jstr) : list Z := flat_map utf8_char s.

(** ECMAScript [WhiteSpace] and [LineTerminator] code points, the set
    that [\s] and [String.prototype.trim] use. *)
Definition is_js_space (c : Z) : bool :=
  (9 <=? c) && (c <=? 13) || (c =? 32) || (c =? 160) || (c =? 5760) ||
  (8192 <=? c) && (c <=? 8202) || (c =? 8232) || (c =? 8233) ||
  (c =? 8239) || (c =? 8287) || (c =? 12288) || (c =? 65279).

Fixpoint trim_start (s : jstr) : jstr :=
  match s with
  | c :: s' => if is_js_space c then trim_start s' else s
  | [] => []
  end.

Definition trim (s : jstr) : jstr := rev (trim_start (rev (trim_start s))).

(* ------------------------------------------------------------------ *)
(** ** Circuit breaker ([CircuitBreaker], mcp-proxy.ts) *)

Module CB.

Inductive CircuitBreakerState := closed | open_ | half_open.

Definition state_eqb (a b : CircuitBreakerState) : bool :=
  match a, b with
  | closed, closed | open_, open_ | half_open, half_open => true
  | _, _ => false
  end.

Record CircuitBreakerConfig := {
  failureThreshold : Z;
  resetTimeout : Z;
  successThreshold : Z
}.

Record CircuitBreaker := {
  state : CircuitBreakerState;
  failureCount : Z;
  successCount : Z;
  lastFailureTime : Z;
  config : CircuitBreakerConfig
}.

Definition default_config : CircuitBreakerConfig :=
  {| failureThreshold := 5; resetTimeout := 60000; successThreshold := 2 |}.

Definition create (c : CircuitBreakerConfig) : CircuitBreaker :=
  {| state := closed; failureCount := 0; successCount := 0;
     lastFailureTime := 0; config := c |}.

Definition with_state (b : CircuitBreaker) (s : CircuitBreakerState)
  (fc sc lft : Z) : CircuitBreaker :=
  {| state := s; failureCount := fc; successCount := sc;
     lastFailureTime := lft; config := config b |}.

(** [canExecute()] at clock [now] ([Date.now()]). *)
Definition canExecute (now : Z) (b : CircuitBreaker) : bool * CircuitBreaker :=
  match state b with
  | closed => (true, b)
  | open_ =>
      if resetTimeout (config b) <=? now - lastFailureTime b then
        (true, with_state b half_open (failureCount b) 0 (lastFailureTime b))
      else (false, b)
  | half_open => (true, b)
  end.

(** [recordSuccess()] *)
Definition recordSuccess (b : CircuitBreaker) : CircuitBreaker :=
  match state b with
  | half_open =>
      let sc := successCount b + 1 in
      if successThreshold (config b) <=? sc
      then with_state b closed 0 sc (lastFailureTime b)
      else with_state b half_open (failureCount b) sc (lastFailureTime b)
  | closed => with_state b closed 0 (successCount b) (lastFailureTime b)
  | open_ => b
  end.

(** [recordFailure()] at clock [now]. *)
Definition recordFailure (now : Z) (b : CircuitBreaker) : CircuitBreaker :=
  let fc := failureCount b + 1 in
  match state b with
  | half_open => with_state b open_ fc (successCount b) now
  | closed =>
      if failureThreshold (config b) <=? fc
      then with_state b open_ fc (successCount b) now
      else with_state b closed fc (successCount b) now
  | open_ => with_state b open_ fc (successCount b) now
  end.

(** The operations a caller can apply, each at a clock value. *)
Inductive op := OpCanExecute (now : Z) | OpSuccess | OpFailure (now : Z).

Definition apply_op (o : op) (b : CircuitBreaker) : CircuitBreaker :=
  match o with
  | OpCanExecute now => snd (canExecute now b)
  | OpSuccess => recordSuccess b
  | OpFailure now => recordFailure now b
  end.

Definition run_ops (os : list op) (b : CircuitBreaker) : CircuitBreaker :=
  fold_left (fun b o => apply_op o b) os b.

(** The state-changing edges the claim allows. *)
Definition allowed_edge (s t : CircuitBreakerState) : Prop :=
  s = t \/ (s = closed /\ t = open_) \/ (s = open_ /\ t = half_open) \/
  (s = half_open /\ t = closed) \/ (s = half_open /\ t = open_).

End CB.

(* ------------------------------------------------------------------ *)
(** ** SHA-256 and HMAC-SHA256 (node [crypto]) over byte lists *)

Module Sha.

Definition mask32 (x : Z) : Z := x mod 4294967296.
Definition add32 (x y : Z) : Z := mask32 (x + y).
Definition rotr (x : Z) (n : Z) : Z :=
  Z.lor (Z.shiftr x n) (mask32 (Z.shiftl x (32 - n))).
Definition not32 (x : Z) : Z := Z.lxor x 4294967295.

Definition K : list Z := [
  1116352408; 1899447441; 3049323471; 3921009573; 961987163; 1508970993;
  2453635748; 2870763221; 3624381080; 310598401; 607225278; 1426881987;
  1925078388; 2162078206; 2614888103; 3248222580; 3835390401; 4022224774;
  264347078; 604807628; 770255983; 1249150122; 1555081692; 1996064986;
  2554220882; 2821834349; 2952996808; 3210313671; 3336571891; 3584528711;
  113926993; 338241895; 666307205; 773529912; 1294757372; 1396182291;
  1695183700; 1986661051; 2177026350; 2456956037; 2730485921; 2820302411;
  3259730800; 3345764771; 3516065817; 3600352804; 4094571909; 275423344;
  430227734; 506948616; 659060556; 883997877; 958139571; 1322822218;
  1537002063; 1747873779; 1955562222; 2024104815; 2227730452; 2361852424;
  2428436474; 2756734187; 3204031479; 3329325298].

(** Hash state: the eight working words. *)
Record hstate := mkH { ha : Z; hb : Z; hc : Z; hd : Z; he : Z; hf : Z; hg : Z; hh : Z }.

Definition H0 : hstate :=
  mkH 1779033703 3144134277 1013904242 2773480762
      1359893119 2600822924 528734635 1541459225.

Definition bsig0 x := Z.lxor (Z.lxor (rotr x 2) (rotr x 13)) (rotr x 22).
Definition bsig1 x := Z.lxor (Z.lxor (rotr x 6) (rotr x 11)) (rotr x 25).
Definition ssig0 x := Z.lxor (Z.lxor (rotr x 7) (rotr x 18)) (Z.shiftr x 3).
Definition ssig1 x := Z.lxor (Z.lxor (rotr x 17) (rotr x 19)) (Z.shiftr x 10).
Definition ch x y z := Z.lxor (Z.land x y) (Z.land (not32 x) z).
Definition maj x y z := Z.lxor (Z.lxor (Z.land x y) (Z.land x z)) (Z.land y z).

(** Big-endian words of a 64-byte block. *)
Fixpoint be_words (bs : list Z) : list Z :=
  match bs with
  | b0 :: b1 :: b2 :: b3 :: rest =>
      (b0 * 16777216 + b1 * 65536 + b2 * 256 + b3) :: be_words rest
  | _ => []
  end.

(** Message schedule: extend the 16 words of a block to 64. *)
Fixpoint schedule (n : nat) (w : list Z) : list Z :=
  match n with
  | O => w
  | S n' =>
      let t := List.length w in
      let wt := add32 (add32 (ssig1 (nth (t - 2)%nat w 0)) (nth (t - 7)%nat w 0))
                      (add32 (ssig0 (nth (t - 15)%nat w 0)) (nth (t - 16)%nat w 0)) in
      schedule n' (w ++ [wt])
  end.

Definition round (s : hstate) (kw : Z * Z) : hstate :=
  let '(k, w) := kw in
  let t1 := add32 (add32 (add32 (hh s) (bsig1 (he s)))
                         (add32 (ch (he s) (hf s) (hg s)) k)) w in
  let t2 := add32 (bsig0 (ha s)) (maj (ha s) (hb s) (hc s)) in
  mkH (add32 t1 t2) (ha s) (hb s) (hc s) (add32 (hd s) t1) (he s) (hf s) (hg s).

Definition compress (s : hstate) (block : list Z) : hstate :=
  let w := schedule 48 (be_words block) in
  let r := fold_left round (combine K w) s in
  mkH (add32 (ha s) (ha r)) (add32 (hb s) (hb r)) (add32 (hc s) (hc r))
      (add32 (hd s) (hd r)) (add32 (he s) (he r)) (add32 (hf s) (hf r))
      (add32 (hg s) (hg r)) (add32 (hh s) (hh r)).

Definition be_bytes (n : nat) (x : Z) : list Z :=
  map (fun i => (x / 2 ^ (8 * Z.of_nat (n - 1 - i)%nat)) mod 256) (seq 0 n).

(** Padding: 0x80, zeros up to 56 mod 64, then the 64-bit bit List.length. *)
Definition pad (msg : list Z) : list Z :=
  let l := Z.of_nat (List.length msg) in
  let zeros := Z.to_nat ((55 - l) mod 64) in
  msg ++ [128] ++ repeat 0 zeros ++ be_bytes 8 (8 * l).

Fixpoint blocks (fuel : nat) (bs : list Z) : list (list Z) :=
  match fuel with
  | O => []
  | S f =>
      match bs with
      | [] => []
      | _ => firstn 64 bs :: blocks f (skipn 64 bs)
      end
  end.

Definition word_bytes (x : Z) : list Z :=
  [(x / 16777216) mod 256; (x / 65536) mod 256; (x / 256) mod 256; x mod 256].

Definition digest_bytes (s : hstate) : list Z :=
  word_bytes (ha s) ++ word_bytes (hb s) ++ word_bytes (hc s) ++ word_bytes (hd s) ++
  word_bytes (he s) ++ word_bytes (hf s) ++ word_bytes (hg s) ++ word_bytes (hh s).

(** [createHash('sha256').update(bytes).digest()] *)
Definition sha256 (msg : list Z) : list Z :=
  let p := pad msg in
  digest_bytes (fold_left compress (blocks (List.length p) p) H0).

(** HMAC-SHA256 with a 64-byte block ([crypto.subtle.sign('HMAC', ...)]). *)
Definition hmac_sha256 (key msg : list Z) : list Z :=
  let k := if (64 <? List.length key)%nat then sha256 key else key in
  let k0 := k ++ repeat 0 (64 - List.length k)%nat in
  let ipad := map (fun b => Z.lxor b 54) k0 in
  let opad := map (fun b => Z.lxor b 92) k0 in
  sha256 (opad ++ sha256 (ipad ++ msg)).

Definition hex_digit (d : Z) : Z := if d <? 10 then 48 + d else 87 + d.

(** [b.toString(16).padStart(2, '0')] for a byte [b]. *)
Definition byte_hex (b : Z) : jstr := [hex_digit (b / 16); hex_digit (b mod 16)].

(** [.digest('hex')] / the [map(...).join('')] of webhook.ts *)
Definition hex (bs : list Z) : jstr := flat_map byte_hex bs.

(** The characters [hex] produces: lowercase hex digits. *)
Definition is_hex_char (c : Z) : Prop := (48 <= c <= 57) \/ (97 <= c <= 102).

End Sha.

(* ------------------------------------------------------------------ *)
(** ** JSON values as JavaScript objects *)

Module Json.

(** Numbers are integers here: the texts the development evaluates only
    carry integral numbers. An object keeps its properties in creation
    order; [own_keys] gives the order in which JavaScript enumerates them. *)
Inductive json :=
| JNull
| JBool (b : bool)
| JNum (n : Z)
| JStr (s : jstr)
| JArr (items : list json)
| JObj (props : list (jstr * json)).

Definition is_digit (c : Z) : bool := (48 <=? c) && (c <=? 57).

Fixpoint digits_value (acc : Z) (s : jstr) : Z :=
  match s with
  | [] => acc
  | c :: s' => digits_value (acc * 10 + (c - 48)) s'
  end.

(** A property key that is an array index ([CanonicalNumericIndexString]
    with value below 2^32 - 1) is enumerated before the other keys, in
    ascending numeric order. *)
Definition is_array_index (k : jstr) : bool :=
  match k with
  | [] => false
  | c :: rest =>
      forallb is_digit k && (negb (c =? 48) || (Nat.eqb (List.length rest) 0)) &&
      (digits_value 0 k <? 4294967295)
  end.

Fixpoint insert_index {A} (kv : jstr * A) (l : list (jstr * A)) :=
  match l with
  | [] => [kv]
  | kv' :: l' =>
      if digits_value 0 (fst kv) <=? digits_value 0 (fst kv')
      then kv :: l else kv' :: insert_index kv l'
  end.

(** [OrdinaryOwnPropertyKeys] order. *)
Definition own_props {A} (props : list (jstr * A)) : list (jstr * A) :=
  fold_right insert_index [] (filter (fun kv => is_array_index (fst kv)) props) ++
  filter (fun kv => negb (is_array_index (fst kv))) props.

(** [obj[k] = v]: update in place, or append a new property. *)
Fixpoint js_set (props : list (jstr * json)) (k : jstr) (v : json) :=
  match props with
  | [] => [(k, v)]
  | (k', v') :: rest =>
      if jstr_eqb k k' then (k', v) :: rest else (k', v') :: js_set rest k v
  end.

Fixpoint js_get {A} (props : list (jstr * A)) (k : jstr) : option A :=
  match props with
  | [] => None
  | (k', v) :: rest => if jstr_eqb k k' then Some v else js_get rest k
  end.

(** UTF-16 code units of a string; [Array.prototype.sort] with no
    comparator orders strings by them. *)
Definition utf16_units (s : jstr) : list Z :=
  flat_map (fun c => if 65535 <? c
                     then [55296 + (c - 65536) / 1024; 56320 + (c - 65536) mod 1024]
                     else [c]) s.

Fixpoint units_leb (a b : list Z) : bool :=
  match a, b with
  | [], _ => true
  | _ :: _, [] => false
  | x :: a', y :: b' => (x <? y) || ((x =? y) && units_leb a' b')
  end.

Definition key_leb (a b : jstr) : bool := units_leb (utf16_units a) (utf16_units b).

Fixpoint insert_key (k : jstr) (l : list jstr) : list jstr :=
  match l with
  | [] => [k]
  | k' :: l' => if key_leb k k' then k :: l else k' :: insert_key k l'
  end.

(** [keys.sort()] *)
Definition sort_keys (ks : list jstr) : list jstr := fold_right insert_key [] ks.

(** [sortObject] (tool-shadowing.ts): the keys of every object are read,
    sorted, and written in that order into a fresh object. *)
Fixpoint sortObject (v : json) : json :=
  match v with
  | JArr items => JArr (map sortObject items)
  | JObj props =>
      let sorted_vals := map (fun kv => (fst kv, sortObject (snd kv))) props in
      JObj (fold_left (fun acc k =>
                         match js_get sorted_vals k with
                         | Some x => js_set acc k x
                         | None => acc
                         end)
              (sort_keys (map fst (own_props props))) [])
  | _ => v
  end.

(** [JSON.stringify] *)
Definition hex4 (c : Z) : jstr :=
  [Sha.hex_digit ((c / 4096) mod 16); Sha.hex_digit ((c / 256) mod 16);
   Sha.hex_digit ((c / 16) mod 16); Sha.hex_digit (c mod 16)].

Definition quote_char (c : Z) : jstr :=
  if c =? 34 then [92; 34]
  else if c =? 92 then [92; 92]
  else if c =? 8 then [92; 98]
  else if c =? 12 then [92; 102]
  else if c =? 10 then [92; 110]
  else if c =? 13 then [92; 114]
  else if c =? 9 then [92; 116]
  else if (c <? 32) || ((55296 <=? c) && (c <=? 57343)) then [92; 117] ++ hex4 c
  else [c].

Definition quote (s : jstr) : jstr := [34] ++ flat_map quote_char s ++ [34].

Fixpoint nat_digits (fuel : nat) (n : Z) : jstr :=
  match fuel with
  | O => []
  | S f => if n <? 10 then [48 + n] else nat_digits f (n / 10) ++ [48 + n mod 10]
  end.

Definition num_to_string (n : Z) : jstr :=
  if n <? 0 then 45 :: nat_digits 64 (- n) else nat_digits 64 n.

Fixpoint join (sep : jstr) (l : list jstr) : jstr :=
  match l with
  | [] => []
  | [x] => x
  | x :: l' => x ++ sep ++ join sep l'
  end.

Fixpoint stringify (v : json) : jstr :=
  match v with
  | JNull => s2j "null"
  | JBool true => s2j "true"
  | JBool false => s2j "false"
  | JNum n => num_to_string n
  | JStr s => quote s
  | JArr items => [91] ++ join [44] (map stringify items) ++ [93]
  | JObj props =>
      let fields := map (fun kv => (fst kv, stringify (snd kv))) props in
      [123] ++ join [44] (map (fun kv => quote (fst kv) ++ [58] ++ snd kv)
                              (own_props fields)) ++ [125]
  end.

End Json.

(* ------------------------------------------------------------------ *)
(** ** Tool shadowing detector: hashing, validation, registration
       (tool-shadowing.ts) *)

Module Shadowing.
Import Json.

(** The [Tool] interface: [name], optional [description] and optional
    [inputSchema] ([None] is [undefined]). *)
Record Tool := {
  name : jstr;
  description : option jstr;
  inputSchema : option json
}.

Definition sha256_hex (s : jstr) : jstr := Sha.hex (Sha.sha256 (utf8_encode s)).

(** [hashSchema]: [tool.inputSchema ?? {}] is sorted and serialized. *)
Definition hashSchema (t : Tool) : jstr :=
  let schema := match inputSchema t with
                | None | Some JNull => JObj []
                | Some s => s
                end in
  sha256_hex (stringify (sortObject schema)).

(** [hashDescription] *)
Definition hashDescription (t : Tool) : jstr :=
  sha256_hex (match description t with Some d => d | None => [] end).

(** [computeCombinedHash] *)
Definition computeCombinedHash (t : Tool) : jstr :=
  sha256_hex (name t ++ [58] ++ hashSchema t ++ [58] ++ hashDescription t).

(** The serialization the claim calls canonical: every mapping written
    with its keys in lexicographic order, arrays in order. *)
Fixpoint canonical_lex (v : json) : jstr :=
  match v with
  | JArr items => [91] ++ join [44] (map canonical_lex items) ++ [93]
  | JObj props =>
      let fields := map (fun kv => (fst kv, canonical_lex (snd kv))) props in
      [123] ++ join [44] (map (fun k => match js_get fields k with
                                       | Some x => quote k ++ [58] ++ x
                                       | None => []
                                       end)
                              (sort_keys (map fst props))) ++ [125]
  | _ => stringify v
  end.

(** The hash the claim states. *)
Definition claimed_hash (t : Tool) : jstr :=
  let schema := match inputSchema t with
                | None | Some JNull => JObj []
                | Some s => s
                end in
  sha256_hex (name t ++ [58] ++ sha256_hex (canonical_lex schema) ++ [58] ++
              sha256_hex (match description t with Some d => d | None => [] end)).

(** [ValidationResult] *)
Inductive ValidationError :=
| NotObject | NameNotString | NameEmpty | NameTooLong | DescriptionTooLong
| SchemaNotObject | SchemaTooDeep.

Inductive ValidationResult := Valid | Invalid (e : ValidationError).

(** JavaScript truthiness and [typeof v === 'object'] on JSON values. *)
Definition truthy (v : json) : bool :=
  match v with
  | JNull => false
  | JBool b => b
  | JNum n => negb (n =? 0)
  | JStr s => negb (Nat.eqb (List.length s) 0)
  | _ => true
  end.

Definition typeof_object (v : json) : bool :=
  match v with JNull | JArr _ | JObj _ => true | _ => false end.

(** Property read [v.k] on a JSON value ([undefined] is [None]); arrays
    and primitives have none of the properties read here. *)
Definition get_prop (v : json) (k : jstr) : option json :=
  match v with JObj props => js_get props k | _ => None end.

(** [getObjectDepth(obj, currentDepth)] *)
Fixpoint getObjectDepth (v : json) (currentDepth : Z) : Z :=
  if 25 <? currentDepth then currentDepth else
  match v with
  | JArr items =>
      fold_left Z.max (map (fun it => getObjectDepth it (currentDepth + 1)) items)
                currentDepth
  | JObj props =>
      fold_left Z.max (map (fun kv => getObjectDepth (snd kv) (currentDepth + 1)) props)
                currentDepth
  | _ => currentDepth
  end.

(** [validateTool(tool)] *)
Definition validateTool (tool : json) : ValidationResult :=
  if negb (truthy tool) || negb (typeof_object tool) then Invalid NotObject else
  match get_prop tool (s2j "name") with
  | Some (JStr nm) =>
      if Nat.eqb (List.length (trim nm)) 0 then Invalid NameEmpty
      else if 256 <? utf16_len nm then Invalid NameTooLong
      else if match get_prop tool (s2j "description") with
              | Some (JStr d) => 10000 <? utf16_len d
              | _ => false
              end then Invalid DescriptionTooLong
      else match get_prop tool (s2j "inputSchema") with
           | None => Valid
           | Some sch =>
               if negb (typeof_object sch) then Invalid SchemaNotObject
               else if 20 <? getObjectDepth sch 0 then Invalid SchemaTooDeep
               else Valid
           end
  | _ => Invalid NameNotString
  end.

(** The conditions under which the claim says a descriptor is malformed. *)
Definition claimed_malformed (tool : json) : bool :=
  match tool with
  | JObj _ =>
      match get_prop tool (s2j "name") with
      | Some (JStr nm) =>
          Nat.eqb (List.length (trim nm)) 0 || (256 <? utf16_len nm) ||
          match get_prop tool (s2j "description") with
          | Some (JStr d) => 10000 <? utf16_len d
          | _ => false
          end ||
          match get_prop tool (s2j "inputSchema") with
          | None => false
          | Some (JObj _ as sch) => 20 <? getObjectDepth sch 0
          | Some _ => true
          end
      | _ => true
      end
  | _ => true
  end.

(** A [ShadowingDetectionResult] entry of the registration report. *)
Inductive ShadowingType := collision | mutation | suspicious_description.
Inductive Severity := low | medium | high | critical.
Inductive Action := allow | prompt | deny.

Record ShadowingReport := {
  rtype : ShadowingType;
  severity : Severity;
  recommendedAction : Action;
  reportTool : json
}.

(** [Map] keys compare with SameValueZero: primitives by value, objects
    and arrays by identity (two descriptors never share one). *)
Definition map_key_eqb (a b : json) : bool :=
  match a, b with
  | JNull, JNull => true
  | JBool x, JBool y => Bool.eqb x y
  | JNum x, JNum y => x =? y
  | JStr x, JStr y => jstr_eqb x y
  | _, _ => false
  end.

(** [Map.prototype.set]: an existing key keeps its position. *)
Fixpoint map_set {A} (m : list (json * A)) (k : json) (v : A) : list (json * A) :=
  match m with
  | [] => [(k, v)]
  | (k', v') :: rest =>
      if map_key_eqb k k' then (k', v) :: rest else (k', v') :: map_set rest k v
  end.

(** The registration state the loop of [registerServerTools] threads. *)
Record RegState := {
  registry : list (jstr * jstr);           (* (server, tool name) entries *)
  malformedToolsRejected : Z;
  toolReports : list (json * ShadowingReport)
}.

(** [tool?.name ?? '<invalid>'] *)
Definition report_key (tool : json) : json :=
  match get_prop tool (s2j "name") with
  | None | Some JNull => JStr (s2j "<invalid>")
  | Some v => v
  end.

Section Register.
(** The work done for a descriptor that passes validation (hashing,
    index update, description and collision checks). *)
Variable on_valid : jstr -> json -> RegState -> RegState.

(** The [for (const tool of tools)] loop of [registerServerTools], after
    the rate-limit check. *)
Fixpoint register_loop (server : jstr) (tools : list json) (st : RegState) : RegState :=
  match tools with
  | [] => st
  | tool :: rest =>
      match validateTool tool with
      | Invalid _ =>
          let rep := {| rtype := suspicious_description; severity := medium;
                        recommendedAction := deny; reportTool := report_key tool |} in
          register_loop server rest
            {| registry := registry st;
               malformedToolsRejected := malformedToolsRejected st + 1;
               toolReports := map_set (toolReports st) (report_key tool) rep |}
      | Valid => register_loop server rest (on_valid server tool st)
      end
  end.
End Register.

Definition empty_reg : RegState :=
  {| registry := []; malformedToolsRejected := 0; toolReports := [] |}.

End Shadowing.

(* ------------------------------------------------------------------ *)
(** ** Policy engine (policy-engine.ts) *)

Module Policy.

Inductive PolicyAction := allow | prompt | deny.
Inductive RiskLevel := safe | read | write | destructive | dangerous.

Record PolicyDecision := {
  action : PolicyAction;
  riskLevel : RiskLevel;
  reason : jstr;
  matchedPolicy : option jstr
}.

Record PathsConfig := { paths_allow : option (list jstr); paths_deny : option (list jstr) }.

(** A policy entry; [tools] is [string | string[]] normalized to a list
    ([None] is an absent field), [p_action] the raw action string. *)
Record PolicyConfig := {
  tools : option (list jstr);
  p_action : option jstr;
  paths : option PathsConfig
}.

Record ServerConfig := { command : jstr; policies : option (list PolicyConfig) }.

(** [config.servers] is a plain JavaScript object; [defaults_action] is
    [config.defaults?.action]. *)
Record OverwatchConfig := {
  servers : option (list (jstr * ServerConfig));
  defaults_action : option jstr
}.

Record PolicyEngine := { engine_config : OverwatchConfig; defaultAction : PolicyAction }.

Definition action_of_string (s : jstr) : option PolicyAction :=
  if jstr_eqb s (s2j "allow") then Some allow
  else if jstr_eqb s (s2j "prompt") then Some prompt
  else if jstr_eqb s (s2j "deny") then Some deny
  else None.

(** [(config.defaults?.action as PolicyAction) || 'prompt'] for an action
    string the validation accepts. *)
Definition default_action_of (c : OverwatchConfig) : PolicyAction :=
  match defaults_action c with
  | Some s => match action_of_string s with Some a => a | None => prompt end
  | None => prompt
  end.

Definition new_engine (c : OverwatchConfig) : PolicyEngine :=
  {| engine_config := c; defaultAction := default_action_of c |}.

(** The properties every plain object inherits from [Object.prototype]. *)
Definition object_prototype_keys : list jstr :=
  map s2j ["constructor"; "__defineGetter__"; "__defineSetter__"; "hasOwnProperty";
           "__lookupGetter__"; "__lookupSetter__"; "isPrototypeOf";
           "propertyIsEnumerable"; "toString"; "valueOf"; "__proto__";
           "toLocaleString"]%string.

(** The value of [this.config.servers?.[serverName]]. *)
Inductive ServerLookup :=
| OwnEntry (sc : ServerConfig)   (* an own property of [servers] *)
| Inherited                      (* a truthy inherited property *)
| Undefined.

Definition lookup_server (c : OverwatchConfig) (serverName : jstr) : ServerLookup :=
  match servers c with
  | None => Undefined
  | Some props =>
      match Json.js_get props serverName with
      | Some sc => OwnEntry sc
      | None => if existsb (jstr_eqb serverName) object_prototype_keys
                then Inherited else Undefined
      end
  end.

(** *** Regular expressions of the sublanguage the engine generates *)

Inductive atom := Lit (c : Z) | AnyChar.
Inductive quant := One | Opt | Star.

(** Line terminators, which [.] does not match without the [s] flag. *)
Definition is_line_terminator (c : Z) : bool :=
  (c =? 10) || (c =? 13) || (c =? 8232) || (c =? 8233).

Definition atom_ok (a : atom) (c : Z) : bool :=
  match a with Lit x => x =? c | AnyChar => negb (is_line_terminator c) end.

(** Parse the body of [^...$]: [\c] is a literal, [.] any character,
    [*] and [?] quantify the preceding atom (a following [?] makes it lazy,
    which does not change what [test] accepts); a quantifier with nothing
    to repeat is a [SyntaxError] ([None]). *)
Fixpoint parse_body (fuel : nat) (s : list Z) : option (list (atom * quant)) :=
  match fuel with
  | O => None
  | S f =>
      let atom_then (a : atom) (rest : list Z) :=
        let '(q, rest') :=
          match rest with
          | 42 :: 63 :: r => (Star, r)
          | 42 :: r => (Star, r)
          | 63 :: 63 :: r => (Opt, r)
          | 63 :: r => (Opt, r)
          | r => (One, r)
          end in
        match parse_body f rest' with
        | Some ps => Some ((a, q) :: ps)
        | None => None
        end in
      match s with
      | [] => Some []
      | 92 :: c :: rest => atom_then (Lit c) rest
      | 46 :: rest => atom_then AnyChar rest
      | 42 :: _ | 63 :: _ => None
      | c :: rest => atom_then (Lit c) rest
      end
  end.

(** [new RegExp(src)] for [src = '^' + body + '$']. *)
Definition compile (src : list Z) : option (list (atom * quant)) :=
  match src with
  | 94 :: rest =>
      match rev rest with
      | 36 :: rbody => parse_body (S (List.length rbody)) (rev rbody)
      | _ => None
      end
  | _ => None
  end.

(** [regex.test(s)] for an anchored pattern, on UTF-16 code units. *)
Fixpoint rmatch (r : list (atom * quant)) (s : list Z) : bool :=
  match r with
  | [] => match s with [] => true | _ => false end
  | (a, One) :: r' => match s with c :: s' => atom_ok a c && rmatch r' s' | [] => false end
  | (a, Opt) :: r' =>
      match s with c :: s' => atom_ok a c && rmatch r' s' | [] => false end || rmatch r' s
  | (a, Star) :: r' =>
      (fix go (s : list Z) : bool :=
         rmatch r' s || match s with c :: s' => atom_ok a c && go s' | [] => false end) s
  end.

Definition regex_test (src : list Z) (s : jstr) : option bool :=
  match compile src with
  | Some r => Some (rmatch r (Json.utf16_units s))
  | None => None
  end.

(** [s.replace(/[.+^${}()|[\]\\]/g, '\\$&')] *)
Definition escape_meta (s : jstr) : jstr :=
  flat_map (fun c => if existsb (Z.eqb c) [46; 43; 94; 36; 123; 125; 40; 41; 124; 91; 93; 92]
                     then [92; c] else [c]) s.

Definition replace_char (x : Z) (by_ : jstr) (s : jstr) : jstr :=
  flat_map (fun c => if c =? x then by_ else [c]) s.

(** [patternToRegex] *)
Definition patternToRegex (pattern : jstr) : jstr :=
  [94] ++ replace_char 42 [46; 42] (escape_meta pattern) ++ [36].

(** [matchesPolicy]; [None] when [new RegExp] throws. The cache of
    [compilePatterns] holds the same regex as the fallback branch. *)
Definition matchesPolicy (p : PolicyConfig) (tool : jstr) : option bool :=
  match tools p with
  | None => Some true
  | Some ts =>
      fold_right (fun pattern acc =>
        if jstr_eqb pattern [42] then Some true
        else if jstr_eqb pattern tool then Some true
        else if includes pattern [42] then
          match regex_test (patternToRegex pattern) tool with
          | Some true => Some true
          | Some false => acc
          | None => None
          end
        else acc) (Some false) ts
  end.

(** [matchPath] *)
Definition matchPath (path pattern : jstr) : option bool :=
  if jstr_eqb pattern [42] then Some true
  else if jstr_eqb pattern path then Some true
  else regex_test ([94] ++ replace_char 63 [46] (replace_char 42 [46; 42] (escape_meta pattern))
                   ++ [36]) path.

(** [extractPath]: the first string among the path-typed keys, or ''. *)
Definition extractPath (args : list (jstr * Json.json)) : jstr :=
  fold_right (fun key acc =>
    match Json.js_get args key with Some (Json.JStr s) => s | _ => acc end)
    [] (map s2j ["path"; "file"; "filename"; "filepath"; "directory"; "dir"]%string).

(** [arr.some(p => matchPath(path, p))]; a throw propagates. *)
Fixpoint some_path (path : jstr) (ps : list jstr) : option bool :=
  match ps with
  | [] => Some false
  | p :: ps' => match matchPath path p with
                | Some true => Some true
                | Some false => some_path path ps'
                | None => None
                end
  end.

Definition mk (a : PolicyAction) (r : RiskLevel) (why : string) : PolicyDecision :=
  {| action := a; riskLevel := r; reason := s2j why; matchedPolicy := None |}.

(** [evaluatePolicy]; [Some None] is [null]. *)
Definition evaluatePolicy (p : PolicyConfig) (args : list (jstr * Json.json))
  : option (option PolicyDecision) :=
  let static :=
    match p_action p with
    | Some a => match action_of_string a with
                | Some act => Some (Some (mk act write "Policy static action"))
                | None => Some None
                end
    | None => Some None
    end in
  match paths p with
  | Some pc =>
      let pathArg := extractPath args in
      if Nat.eqb (List.length pathArg) 0 then static else
      match some_path pathArg (match paths_deny pc with Some l => l | None => [] end) with
      | None => None
      | Some true => Some (Some (mk deny dangerous "Path matches deny pattern"))
      | Some false =>
          match some_path pathArg (match paths_allow pc with Some l => l | None => [] end) with
          | None => None
          | Some true => Some (Some (mk allow safe "Path matches allow pattern"))
          | Some false => static
          end
      end
  | None => static
  end.

(** [toLowerCase] on the characters whose lower case contains a Latin
    letter: ASCII capitals, U+212A KELVIN SIGN and U+0130. *)
Definition toLowerCase (s : jstr) : jstr :=
  flat_map (fun c => if (65 <=? c) && (c <=? 90) then [c + 32]
                     else if c =? 8490 then [107]
                     else if c =? 304 then [105; 775]
                     else [c]) s.

Definition includes_any (s : jstr) (ws : list string) : bool :=
  existsb (fun w => includes s (s2j w)) ws.

(** [inferFromToolName] *)
Definition inferFromToolName (e : PolicyEngine) (tool : jstr) : PolicyDecision :=
  let toolLower := toLowerCase tool in
  if includes_any toolLower ["delete"; "remove"; "drop"; "truncate"]%string then
    mk prompt destructive "Destructive operation inferred from tool name"
  else if includes_any toolLower ["write"; "create"; "update"; "insert"; "modify"; "set"]%string then
    mk prompt write "Write operation inferred from tool name"
  else if includes_any toolLower ["read"; "get"; "list"; "search"; "find"; "query"]%string then
    mk allow read "Read operation inferred from tool name"
  else mk (defaultAction e) write "Unknown tool type".

(** [policyDescription] *)
Definition policyDescription (p : PolicyConfig) : jstr :=
  let parts := (match tools p with
                | Some ts => [s2j "tools: " ++ Json.join (s2j ", ") ts]
                | None => [] end) ++
               (match p_action p with
                | Some a => if Nat.eqb (List.length a) 0 then [] else [s2j "action: " ++ a]
                | None => [] end) in
  match parts with [] => s2j "default policy" | _ => Json.join (s2j ", ") parts end.

Fixpoint eval_policies (e : PolicyEngine) (ps : list PolicyConfig) (tool : jstr)
  (args : list (jstr * Json.json)) : option PolicyDecision :=
  match ps with
  | [] => Some (inferFromToolName e tool)
  | p :: ps' =>
      match matchesPolicy p tool with
      | None => None
      | Some false => eval_policies e ps' tool args
      | Some true =>
          match evaluatePolicy p args with
          | None => None
          | Some (Some d) =>
              Some {| action := action d; riskLevel := riskLevel d; reason := reason d;
                      matchedPolicy := Some (policyDescription p) |}
          | Some None => eval_policies e ps' tool args
          end
      end
  end.

(** [evaluate(serverName, tool, args)]; [None] when it throws. *)
Definition evaluate (e : PolicyEngine) (serverName tool : jstr)
  (args : list (jstr * Json.json)) : option PolicyDecision :=
  match lookup_server (engine_config e) serverName with
  | Undefined =>
      Some (mk (defaultAction e) write "No server configuration found")
  | Inherited => eval_policies e [] tool args
  | OwnEntry sc =>
      eval_policies e (match policies sc with Some l => l | None => [] end) tool args
  end.

(** The matcher the claim describes: [*] any string, [?] one character,
    everything else literal. *)
Fixpoint glob_match (pattern s : jstr) : bool :=
  match pattern with
  | [] => match s with [] => true | _ => false end
  | 42 :: p' =>
      (fix go (s : jstr) : bool :=
         glob_match p' s || match s with _ :: s' => go s' | [] => false end) s
  | 63 :: p' => match s with _ :: s' => glob_match p' s' | [] => false end
  | c :: p' => match s with c' :: s' => (c =? c') && glob_match p' s' | [] => false end
  end.

End Policy.

(* ------------------------------------------------------------------ *)
(** ** Session grants ([SessionStore], approval/terminal.ts) *)

Module Sessions.

Inductive Scope := exact | tool | server_scope.

(** A row of the [sessions] table. *)
Record Session := {
  id : jstr;
  scope : Scope;
  pattern : jstr;
  server : option jstr;
  createdAt : Z;
  expiresAt : Z;
  useCount : Z;
  lastUsedAt : option Z;
  revokedAt : option Z;
  revokedBy : option jstr;
  revokeReason : option jstr
}.

Definition revoke_row (now : Z) (by_ : jstr) (why : option jstr) (s : Session) : Session :=
  {| id := id s; scope := scope s; pattern := pattern s; server := server s;
     createdAt := createdAt s; expiresAt := expiresAt s; useCount := useCount s;
     lastUsedAt := lastUsedAt s; revokedAt := Some now; revokedBy := Some by_;
     revokeReason := why |}.

Definition is_unrevoked (s : Session) : bool :=
  match revokedAt s with None => true | Some _ => false end.

(** [reason || null] *)
Definition reason_col (reason : option jstr) : option jstr :=
  match reason with Some (_ :: _) => reason | _ => None end.

(** [UPDATE sessions SET revoked_at = ?, revoked_by = ?, revoke_reason = ?
     WHERE <col> = ? AND revoked_at IS NULL], returning [result.changes]. *)
Definition update_where (sel : Session -> bool) (now : Z) (by_ : jstr)
  (reason : option jstr) (rows : list Session) : list Session * Z :=
  (map (fun s => if sel s && is_unrevoked s then revoke_row now by_ (reason_col reason) s else s)
       rows,
   Z.of_nat (List.length (filter (fun s => sel s && is_unrevoked s) rows))).

(** [revokeByPattern(pattern, revokedBy, reason)] at clock [now]. *)
Definition revokeByPattern (now : Z) (p : jstr) (by_ : jstr) (reason : option jstr)
  (rows : list Session) : list Session * Z :=
  update_where (fun s => jstr_eqb (pattern s) p) now by_ reason rows.

(** [revokeByServer(server, revokedBy, reason)]: a NULL [server] column
    never equals the argument. *)
Definition revokeByServer (now : Z) (srv : jstr) (by_ : jstr) (reason : option jstr)
  (rows : list Session) : list Session * Z :=
  update_where (fun s => match server s with Some x => jstr_eqb x srv | None => false end)
    now by_ reason rows.

(** A grant is active when it has not expired and is not revoked. *)
Definition is_active (now : Z) (s : Session) : bool :=
  (now <? expiresAt s) && is_unrevoked s.

(** [matchPattern] *)
Definition matchPattern (p tool_name : jstr) : bool :=
  if jstr_eqb p [42] then true
  else match rev p with
       | 42 :: rprefix => starts_with tool_name (rev rprefix)
       | _ => match p with
              | 42 :: suffix => starts_with (rev tool_name) (rev suffix)
              | _ => jstr_eqb p tool_name
              end
       end.

Fixpoint insert_by_created (s : Session) (l : list Session) : list Session :=
  match l with
  | [] => [s]
  | s' :: l' => if createdAt s' <=? createdAt s then s :: l else s' :: insert_by_created s l'
  end.

(** [findMatch(tool, server)] at clock [now]: active rows, newest first. *)
Definition findMatch (now : Z) (tool_name : jstr) (srv : option jstr) (rows : list Session)
  : option Session :=
  let active := fold_right insert_by_created [] (filter (is_active now) rows) in
  find (fun s =>
    match server s with
    | Some x => match srv with Some y => jstr_eqb x y | None => false end
    | None => true
    end &&
    match scope s with
    | exact => jstr_eqb (pattern s) tool_name
    | tool => matchPattern (pattern s) tool_name
    | server_scope => true
    end) active.

End Sessions.

(* ------------------------------------------------------------------ *)
(** ** Tool-call handling of the proxy ([MCPProxy.handleToolCall]) *)

Module Proxy.
Import Policy.

Inductive FailMode := fm_open | fm_closed | fm_readonly.

(** What [approvalHandler.requestApproval] does: resolve with [approved],
    or reject. *)
Inductive ApprovalOutcome := Resolved (approved : bool) | Rejected.

(** The observable effects of handling one call, in order. *)
Inductive Effect :=
| ApprovalRequested (tool : jstr) (risk : RiskLevel)
| ReplyDenied (risk : RiskLevel)
| AuditDenied
| ForwardUpstream
| AuditAllowed.

(** [requestApproval]: the handler's answer, or the fail mode on error. *)
Definition requestApproval (failMode : FailMode) (o : ApprovalOutcome) : bool :=
  match o with
  | Resolved b => b
  | Rejected => match failMode with fm_open => true | _ => false end
  end.

(** [handleToolCall] for a request [tools/call] with [params.name = tool]
    and [params.arguments = args]; the approval handler's behaviour is the
    [outcome] argument. [None] when policy evaluation throws. *)
Definition handleToolCall (engine : PolicyEngine) (serverName : jstr) (failMode : FailMode)
  (outcome : ApprovalOutcome) (tool : jstr) (args : list (jstr * Json.json))
  : option (list Effect) :=
  match evaluate engine serverName tool args with
  | None => None
  | Some decision =>
      let forward := [ForwardUpstream; AuditAllowed] in
      match action decision with
      | deny => Some [ReplyDenied (riskLevel decision); AuditDenied]
      | prompt =>
          let asked := ApprovalRequested tool (riskLevel decision) in
          if requestApproval failMode outcome
          then Some (asked :: forward)
          else Some [asked; ReplyDenied (riskLevel decision); AuditDenied]
      | allow => Some forward
      end
  end.

End Proxy.

(* ------------------------------------------------------------------ *)
(** ** [JSON.parse] *)

Module JsonParse.
Import Json.

Definition is_ws (c : Z) : bool := (c =? 32) || (c =? 9) || (c =? 10) || (c =? 13).

Fixpoint skip_ws (s : list Z) : list Z :=
  match s with c :: s' => if is_ws c then skip_ws s' else s | [] => [] end.

Definition hex_val (c : Z) : option Z :=
  if (48 <=? c) && (c <=? 57) then Some (c - 48)
  else if (97 <=? c) && (c <=? 102) then Some (c - 87)
  else if (65 <=? c) && (c <=? 70) then Some (c - 55)
  else None.

Definition hex4_val (a b c d : Z) : option Z :=
  match hex_val a, hex_val b, hex_val c, hex_val d with
  | Some x, Some y, Some z, Some w => Some (((x * 16 + y) * 16 + z) * 16 + w)
  | _, _, _, _ => None
  end.

(** The body of a string literal after the opening quote; a surrogate
    pair written as two escapes is one code point. *)
Fixpoint parse_chars (fuel : nat) (s : list Z) : option (jstr * list Z) :=
  match fuel with
  | O => None
  | S f =>
      let cont c rest := match parse_chars f rest with
                         | Some (cs, r) => Some (c :: cs, r)
                         | None => None
                         end in
      match s with
      | 34 :: rest => Some ([], rest)
      | 92 :: 117 :: a :: b :: c :: d :: rest =>
          match hex4_val a b c d with
          | None => None
          | Some u =>
              match rest with
              | 92 :: 117 :: a' :: b' :: c' :: d' :: rest' =>
                  match hex4_val a' b' c' d' with
                  | Some l => if (55296 <=? u) && (u <=? 56319) && (56320 <=? l) && (l <=? 57343)
                              then cont (65536 + (u - 55296) * 1024 + (l - 56320)) rest'
                              else cont u rest
                  | None => cont u rest
                  end
              | _ => cont u rest
              end
          end
      | 92 :: e :: rest =>
          if e =? 34 then cont 34 rest else if e =? 92 then cont 92 rest
          else if e =? 47 then cont 47 rest else if e =? 98 then cont 8 rest
          else if e =? 102 then cont 12 rest else if e =? 110 then cont 10 rest
          else if e =? 114 then cont 13 rest else if e =? 116 then cont 9 rest
          else None
      | c :: rest => if c <? 32 then None else cont c rest
      | [] => None
      end
  end.

Fixpoint take_digits (s : list Z) : jstr * list Z :=
  match s with
  | c :: s' => if is_digit c then let '(ds, r) := take_digits s' in (c :: ds, r) else ([], s)
  | [] => ([], [])
  end.

(** A number; those with a fraction or an exponent are outside the
    integer model and refused. *)
Definition parse_number (s : list Z) : option (json * list Z) :=
  let '(neg, s1) := match s with 45 :: r => (true, r) | _ => (false, s) end in
  let '(ds, rest) := take_digits s1 in
  match ds with
  | [] => None
  | 48 :: _ :: _ => None
  | _ => match rest with
         | 46 :: _ | 101 :: _ | 69 :: _ => None
         | _ => let v := digits_value 0 ds in Some (JNum (if neg then - v else v), rest)
         end
  end.

Fixpoint parse_value (fuel : nat) (s : list Z) : option (json * list Z) :=
  match fuel with
  | O => None
  | S f =>
      match skip_ws s with
      | 110 :: 117 :: 108 :: 108 :: r => Some (JNull, r)
      | 116 :: 114 :: 117 :: 101 :: r => Some (JBool true, r)
      | 102 :: 97 :: 108 :: 115 :: 101 :: r => Some (JBool false, r)
      | 34 :: r => match parse_chars (S (List.length r)) r with
                   | Some (cs, r') => Some (JStr cs, r')
                   | None => None
                   end
      | 91 :: r =>
          match skip_ws r with
          | 93 :: r' => Some (JArr [], r')
          | _ =>
              (fix items (g : nat) (acc : list json) (t : list Z) :=
                 match g with
                 | O => None
                 | S g' =>
                     match parse_value f t with
                     | None => None
                     | Some (v, t1) =>
                         match skip_ws t1 with
                         | 44 :: t2 => items g' (acc ++ [v]) t2
                         | 93 :: t2 => Some (JArr (acc ++ [v]), t2)
                         | _ => None
                         end
                     end
                 end) f [] r
          end
      | 123 :: r =>
          match skip_ws r with
          | 125 :: r' => Some (JObj [], r')
          | _ =>
              (fix members (g : nat) (acc : list (jstr * json)) (t : list Z) :=
                 match g with
                 | O => None
                 | S g' =>
                     match skip_ws t with
                     | 34 :: t0 =>
                         match parse_chars (S (List.length t0)) t0 with
                         | None => None
                         | Some (k, t1) =>
                             match skip_ws t1 with
                             | 58 :: t2 =>
                                 match parse_value f t2 with
                                 | None => None
                                 | Some (v, t3) =>
                                     match skip_ws t3 with
                                     | 44 :: t4 => members g' (js_set acc k v) t4
                                     | 125 :: t4 => Some (JObj (js_set acc k v), t4)
                                     | _ => None
                                     end
                                 end
                             | _ => None
                             end
                         end
                     | _ => None
                     end
                 end) f [] r
          end
      | r => parse_number r
      end
  end.

(** [JSON.parse(text)]; [None] is a thrown [SyntaxError]. *)
Definition parse (text : jstr) : option json :=
  match parse_value (S (List.length text)) text with
  | Some (v, rest) => match skip_ws rest with [] => Some v | _ => None end
  | None => None
  end.

End JsonParse.

(* ------------------------------------------------------------------ *)
(** ** Framed transport ([MCPTransport], transport.ts) *)

Module Transport.

(** The buffer is held as code points; its indices are the UTF-16 indices
    of the code on text without characters beyond U+FFFF. *)
Record TransportState := {
  buffer : jstr;
  contentLength : option Z
}.

Record TransportConfig := { maxMessageSize : Z; maxBufferSize : Z; maxHeaderSize : Z }.

Definition default_config : TransportConfig :=
  {| maxMessageSize := 10 * 1024 * 1024; maxBufferSize := 20 * 1024 * 1024;
     maxHeaderSize := 8 * 1024 |}.

Inductive ErrorKind :=
| BufferLimit | HeaderLimit | MessageLimit | InvalidContentLength | ContentTooLarge
| InvalidJson.

Inductive Event := Message (m : Json.json) | Error (e : ErrorKind) | Close.

(** [s.indexOf(sub)] *)
Fixpoint indexOf (s sub : jstr) : option nat :=
  if starts_with s sub then Some O
  else match s with
       | [] => None
       | _ :: s' => match indexOf s' sub with Some n => Some (S n) | None => None end
       end.

Definition lower_ascii (c : Z) : Z := if (65 <=? c) && (c <=? 90) then c + 32 else c.

Fixpoint ci_prefix (s p : jstr) : option jstr :=
  match p, s with
  | [], _ => Some s
  | x :: p', c :: s' => if lower_ascii c =? lower_ascii x then ci_prefix s' p' else None
  | _ :: _, [] => None
  end.

(** [header.match(/Content-Length: (\d+)/i)]: the digits of the leftmost
    match. *)
Fixpoint match_content_length (header : jstr) : option jstr :=
  match
    match ci_prefix header (s2j "Content-Length: ") with
    | Some rest => match JsonParse.take_digits rest with
                   | ([], _) => None
                   | (ds, _) => Some ds
                   end
    | None => None
    end
  with
  | Some ds => Some ds
  | None => match header with [] => None | _ :: h' => match_content_length h' end
  end.

(** [Number.isFinite(parseInt(digits, 10))]: the decimal value rounds to a
    finite double. *)
Definition parse_is_finite (v : Z) : bool := v <? 2 ^ 1024 - 2 ^ 970.

Definition crlfcrlf : jstr := [13; 10; 13; 10].

(** One pass of the [while (true)] body of [processBuffer]: [inl] to
    [continue] with the new state, [inr] to [return]. *)
Definition step (c : TransportConfig) (st : TransportState)
  : (TransportState + TransportState) * list Event :=
  let after_header (cl : Z) (buf : jstr) :=
    if Z.of_nat (List.length buf) <? cl then (inr {| buffer := buf; contentLength := Some cl |}, [])
    else
      let content := firstn (Z.to_nat cl) buf in
      let st' := {| buffer := skipn (Z.to_nat cl) buf; contentLength := None |} in
      match JsonParse.parse content with
      | Some m => (inl st', [Message m])
      | None => (inl st', [Error InvalidJson])
      end in
  match contentLength st with
  | Some cl => after_header cl (buffer st)
  | None =>
      let buf := buffer st in
      match indexOf buf crlfcrlf with
      | None =>
          if maxHeaderSize c <? utf16_len buf
          then (inr {| buffer := []; contentLength := None |}, [Error HeaderLimit])
          else (inr st, [])
      | Some headerEnd =>
          let header := firstn headerEnd buf in
          match match_content_length header with
          | None =>
              match indexOf buf [10] with
              | None => (inr st, [])
              | Some nl =>
                  let line := trim (firstn nl buf) in
                  let st' := {| buffer := skipn (S nl) buf; contentLength := None |} in
                  if maxMessageSize c <? utf16_len line then (inl st', [Error MessageLimit])
                  else match line with
                       | [] => (inl st', [])
                       | _ => match JsonParse.parse line with
                              | Some m => (inl st', [Message m])
                              | None => (inl st', [])
                              end
                       end
              end
          | Some ds =>
              let v := Json.digits_value 0 ds in
              let rest := skipn (headerEnd + 4) buf in
              if negb (parse_is_finite v) then
                (inl {| buffer := rest; contentLength := None |}, [Error InvalidContentLength])
              else if maxMessageSize c <? v then
                let rest' := if v <=? Z.of_nat (List.length rest)
                             then skipn (Z.to_nat v) rest else [] in
                (inl {| buffer := rest'; contentLength := None |}, [Error ContentTooLarge])
              else after_header v rest
          end
      end
  end.

(** [processBuffer()]; every two passes consume input, so the fuel
    [2 * |buffer| + 2] is never exhausted. *)
Fixpoint process (fuel : nat) (c : TransportConfig) (st : TransportState)
  : TransportState * list Event :=
  match fuel with
  | O => (st, [])
  | S f =>
      match step c st with
      | (inr st', evs) => (st', evs)
      | (inl st', evs) => let '(st'', evs') := process f c st' in (st'', evs ++ evs')
      end
  end.

Definition processBuffer (c : TransportConfig) (st : TransportState)
  : TransportState * list Event :=
  process (2 * List.length (buffer st) + 2) c st.

(** The ['data'] handler for a chunk decoding to [chunk]. *)
Definition on_data (c : TransportConfig) (chunk : jstr) (st : TransportState)
  : TransportState * list Event :=
  let newSize := utf16_len (buffer st) + Z.of_nat (List.length (utf8_encode chunk)) in
  if maxBufferSize c <? newSize
  then ({| buffer := []; contentLength := None |}, [Error BufferLimit])
  else processBuffer c {| buffer := buffer st ++ chunk; contentLength := contentLength st |}.

(** A stream delivered as a sequence of chunks, from a fresh transport. *)
Fixpoint feed (c : TransportConfig) (chunks : list jstr) (st : TransportState)
  : TransportState * list Event :=
  match chunks with
  | [] => (st, [])
  | ch :: rest =>
      let '(st1, e1) := on_data c ch st in
      let '(st2, e2) := feed c rest st1 in (st2, e1 ++ e2)
  end.

Definition initial : TransportState := {| buffer := []; contentLength := None |}.

End Transport.

(* ------------------------------------------------------------------ *)
(** ** Webhook signature verification (approval/webhook.ts) *)

Module Webhook.

Definition sha256_prefix : jstr := s2j "sha256=".

(** [Buffer.alloc(64)] with the first [min(len, 64)] bytes copied in. *)
Definition provided_buffer (bytes : list Z) : list Z :=
  firstn 64 bytes ++ repeat 0 (64 - List.length (firstn 64 bytes)).

(** [timingSafeEqual] on two buffers of the same length. *)
Definition timingSafeEqual (a b : list Z) : bool :=
  forallb (fun p => fst p =? snd p) (combine a b) && Nat.eqb (List.length a) (List.length b).

Definition expected_sig (body secret : jstr) : jstr :=
  Sha.hex (Sha.hmac_sha256 (utf8_encode secret) (utf8_encode body)).

(** [verifyWebhookSignature(body, signature, secret)]; a [None] signature is
    [null] or [undefined]. *)
Definition verifyWebhookSignature (body : jstr) (signature : option jstr) (secret : jstr) : bool :=
  match signature with
  | None | Some [] => false
  | Some sig =>
      match secret with
      | [] => false
      | _ =>
          let providedSig := if starts_with sig sha256_prefix then skipn 7 sig else sig in
          let expectedSig := expected_sig body secret in
          let providedBuffer := provided_buffer (utf8_encode providedSig) in
          let expectedBuffer := utf8_encode expectedSig in
          let correctLength := utf16_len providedSig =? 64 in
          correctLength && timingSafeEqual providedBuffer expectedBuffer
      end
  end.

Inductive Reason := MissingSignature | MissingSecret | InvalidFormat | SignatureMismatch.

Record WebhookVerificationResult := { valid : bool; reason : option Reason }.

(** [verifyWebhookSignatureDetailed] *)
Definition verifyWebhookSignatureDetailed (body : jstr) (signature : option jstr) (secret : jstr)
  : WebhookVerificationResult :=
  match signature with
  | None | Some [] => {| valid := false; reason := Some MissingSignature |}
  | Some sig =>
      match secret with
      | [] => {| valid := false; reason := Some MissingSecret |}
      | _ =>
          if negb (starts_with sig sha256_prefix)
          then {| valid := false; reason := Some InvalidFormat |}
          else if verifyWebhookSignature body signature secret
          then {| valid := true; reason := None |}
          else {| valid := false; reason := Some SignatureMismatch |}
      end
  end.

End Webhook.

(* ------------------------------------------------------------------ *)
(** ** Description normalization ([normalizeForPatternMatching],
       tool-shadowing.ts) *)

Module Normalize.

(** [INVISIBLE_CHARS] *)
Definition INVISIBLE_CHARS : list Z :=
  [8203; 8204; 8205; 8206; 8207; 8288; 8289; 8290; 8291; 8292; 65279; 173; 847;
   1564; 4447; 4448; 6068; 6069; 6158; 12644; 65440].

(** [BIDI_CONTROL_CHARS] *)
Definition BIDI_CONTROL_CHARS : list Z :=
  [8234; 8235; 8236; 8237; 8238; 8294; 8295; 8296; 8297].

(** [HOMOGLYPHS] as (code point, ASCII code) pairs. *)
Definition HOMOGLYPHS : list (Z * Z) := [
  (1072, 97); (1089, 99); (1077, 101); (1211, 104); (1110, 105); (1112, 106);
  (1086, 111); (1088, 112); (1109, 115); (1199, 121); (1093, 120);
  (1281, 100); (1307, 113); (1309, 119); (1040, 65); (1042, 66); (1057, 67);
  (1045, 69); (1053, 72); (1030, 73); (1032, 74); (1050, 75); (1052, 77);
  (1054, 79); (1056, 80); (1029, 83); (1058, 84); (1061, 88); (945, 97);
  (949, 101); (951, 110); (953, 105); (954, 107); (957, 118); (959, 111);
  (961, 112); (964, 116); (965, 117); (967, 120); (969, 119); (913, 65);
  (914, 66); (917, 69); (919, 72); (921, 73); (922, 75); (924, 77);
  (925, 78); (927, 79); (929, 80); (932, 84); (933, 89); (935, 88);
  (593, 97); (609, 103); (617, 105); (305, 105); (567, 106); (65345, 97);
  (65346, 98); (65347, 99); (65348, 100); (65349, 101); (65350, 102);
  (65351, 103); (65352, 104); (65353, 105); (65354, 106); (65355, 107);
  (65356, 108); (65357, 109); (65358, 110); (65359, 111); (65360, 112);
  (65361, 113); (65362, 114); (65363, 115); (65364, 116); (65365, 117);
  (65366, 118); (65367, 119); (65368, 120); (65369, 121); (65370, 122);
  (65313, 65); (65314, 66); (65315, 67); (65316, 68); (65317, 69);
  (65318, 70); (65319, 71); (65320, 72); (65321, 73); (65322, 74);
  (65323, 75); (65324, 76); (65325, 77); (65326, 78); (65327, 79);
  (65328, 80); (65329, 81); (65330, 82); (65331, 83); (65332, 84);
  (65333, 85); (65334, 86); (65335, 87); (65336, 88); (65337, 89);
  (65338, 90); (119834, 97); (119835, 98); (119836, 99); (119837, 100);
  (119838, 101); (119839, 102); (119840, 103); (119841, 104); (119842, 105);
  (119843, 106); (119844, 107); (119845, 108); (119846, 109); (119847, 110);
  (119848, 111); (119849, 112); (119850, 113); (119851, 114); (119852, 115);
  (119853, 116); (8467, 108); (8494, 101); (8495, 101); (8500, 111);
  (1400, 110); (1413, 111); (1405, 117); (65296, 48); (65297, 49);
  (65298, 50); (65299, 51); (65300, 52); (65301, 53); (65302, 54);
  (65303, 55); (65304, 56); (65305, 57)].

Definition mem (c : Z) (l : list Z) : bool := existsb (Z.eqb c) l.

(** [for (const char of LIST) s = s.split(char).join('')] *)
Definition strip (l : list Z) (s : jstr) : jstr := filter (fun c => negb (mem c l)) s.

(** [normalizeHomoglyphs] *)
Definition normalizeHomoglyphs (s : jstr) : jstr :=
  map (fun c => match find (fun p => fst p =? c) HOMOGLYPHS with
                | Some p => snd p
                | None => c
                end) s.

(** Number of leading one bits of a byte. *)
Definition lead_ones (b : Z) : Z :=
  if b <? 128 then 0 else if b <? 192 then 1 else if b <? 224 then 2
  else if b <? 240 then 3 else if b <? 248 then 4 else 5.

(** The code point of a UTF-8 sequence (lead byte and continuation
    bytes), if it is a valid encoding. *)
Definition utf8_decode (b : Z) (conts : list Z) : option Z :=
  if negb (forallb (fun x => (128 <=? x) && (x <? 192)) conts) then None else
  let n := lead_ones b in
  let cp := fold_left (fun acc x => acc * 64 + (x - 128)) conts
                      (b mod (2 ^ (7 - n))) in
  if (n =? 2) && (128 <=? cp) then Some cp
  else if (n =? 3) && (2048 <=? cp) && negb ((55296 <=? cp) && (cp <=? 57343)) then Some cp
  else if (n =? 4) && (65536 <=? cp) && (cp <=? 1114111) then Some cp
  else None.

(** [%XX] at the head of a string: its byte and the rest. *)
Definition pct_byte (s : list Z) : option (Z * list Z) :=
  match s with
  | 37 :: a :: b :: rest =>
      match JsonParse.hex_val a, JsonParse.hex_val b with
      | Some x, Some y => Some (x * 16 + y, rest)
      | _, _ => None
      end
  | _ => None
  end.

Fixpoint pct_bytes (n : nat) (s : list Z) : option (list Z * list Z) :=
  match n with
  | O => Some ([], s)
  | S n' => match pct_byte s with
            | Some (b, rest) => match pct_bytes n' rest with
                                | Some (bs, r) => Some (b :: bs, r)
                                | None => None
                                end
            | None => None
            end
  end.

(** [decodeURIComponent]; [None] is a thrown [URIError]. *)
Fixpoint decodeURIComponent (fuel : nat) (s : jstr) : option jstr :=
  match fuel with
  | O => Some s
  | S f =>
      match s with
      | [] => Some []
      | 37 :: _ =>
          match pct_byte s with
          | None => None
          | Some (b, rest) =>
              if b <? 128 then
                match decodeURIComponent f rest with Some r => Some (b :: r) | None => None end
              else
                let n := lead_ones b in
                if (n =? 1) || (4 <? n) then None else
                match pct_bytes (Z.to_nat (n - 1)) rest with
                | None => None
                | Some (conts, rest') =>
                    match utf8_decode b conts with
                    | None => None
                    | Some cp =>
                        match decodeURIComponent f rest' with
                        | Some r => Some (cp :: r) | None => None
                        end
                    end
                end
          end
      | c :: rest =>
          match decodeURIComponent f rest with Some r => Some (c :: r) | None => None end
      end
  end.

(** The decoding loop: at most three rounds, stopping at a fixed point or
    when decoding throws. *)
Fixpoint url_rounds (n : nat) (s : jstr) : jstr :=
  match n with
  | O => s
  | S n' =>
      match decodeURIComponent (List.length s) (Policy.replace_char 43 [32] s) with
      | None => s
      | Some decoded => if jstr_eqb decoded s then s else url_rounds n' decoded
      end
  end.

(** [s.replace(new RegExp(entity, 'gi'), rep)] for an entity without
    metacharacters. *)
Fixpoint replace_ci (fuel : nat) (entity rep : jstr) (s : jstr) : jstr :=
  match fuel with
  | O => s
  | S f =>
      match s with
      | [] => []
      | c :: s' =>
          match entity with
          | [] => s
          | _ =>
              match Transport.ci_prefix s entity with
              | Some rest => rep ++ replace_ci f entity rep rest
              | None => c :: replace_ci f entity rep s'
              end
          end
      end
  end.

(** The named-entity table, in its insertion order. *)
Definition htmlEntities : list (jstr * jstr) :=
  [(s2j "&lt;", s2j "<"); (s2j "&gt;", s2j ">"); (s2j "&amp;", s2j "&");
   (s2j "&quot;", [34]); (s2j "&#39;", [39]); (s2j "&apos;", [39]);
   (s2j "&nbsp;", [32]); (s2j "&#x200b;", []); (s2j "&#x200c;", []);
   (s2j "&#x200d;", []); (s2j "&#8203;", [])].

Definition is_hex_digit (c : Z) : bool :=
  match JsonParse.hex_val c with Some _ => true | None => false end.

Fixpoint take_while (p : Z -> bool) (s : list Z) : list Z * list Z :=
  match s with
  | c :: s' => if p c then let '(a, r) := take_while p s' in (c :: a, r) else ([], s)
  | [] => ([], [])
  end.

Definition hex_value (ds : list Z) : Z :=
  fold_left (fun acc d => acc * 16 + match JsonParse.hex_val d with Some v => v | None => 0 end)
            ds 0.

(** The replacement callback: [String.fromCodePoint], or '' for an
    invisible or bidi character; [None] is a thrown [RangeError]. *)
Definition entity_char (cp : Z) : option jstr :=
  if 1114111 <? cp then None
  else if mem cp INVISIBLE_CHARS || mem cp BIDI_CONTROL_CHARS then Some []
  else Some [cp].

(** [s.replace(/&#x([0-9a-f]+);/gi, ...)] ([hex] true) or
    [s.replace(/&#(\d+);/g, ...)] ([hex] false). *)
Fixpoint replace_numeric (hex : bool) (fuel : nat) (s : jstr) : option jstr :=
  match fuel with
  | O => Some s
  | S f =>
      let skip c s' := match replace_numeric hex f s' with
                       | Some r => Some (c :: r) | None => None
                       end in
      match s with
      | [] => Some []
      | 38 :: 35 :: rest =>
          let digits_start :=
            if hex then match rest with
                        | x :: r => if (x =? 120) || (x =? 88) then Some r else None
                        | [] => None
                        end
            else Some rest in
          match digits_start with
          | None => skip 38 (35 :: rest)
          | Some r =>
              let '(ds, after) := take_while (if hex then is_hex_digit else Json.is_digit) r in
              match ds, after with
              | _ :: _, 59 :: after' =>
                  let cp := if hex then hex_value ds else Json.digits_value 0 ds in
                  match entity_char cp with
                  | None => None
                  | Some out => match replace_numeric hex f after' with
                                | Some r' => Some (out ++ r') | None => None
                                end
                  end
              | _, _ => skip 38 (35 :: rest)
              end
          end
      | c :: s' => skip c s'
      end
  end.

(** [s.replace(/\s+/g, ' ')]; [in_ws] tells whether the previous
    character was whitespace. *)
Fixpoint collapse_from (in_ws : bool) (s : jstr) : jstr :=
  match s with
  | [] => []
  | c :: s' =>
      if is_js_space c
      then (if in_ws then collapse_from true s' else 32 :: collapse_from true s')
      else c :: collapse_from false s'
  end.

Definition collapse_ws (s : jstr) : jstr := collapse_from false s.

(** The steps of [normalizeForPatternMatching] before [normalize('NFKC')]:
    invisible and bidi characters removed, URL decoding, removal again,
    named entities, then hex and decimal numeric entities. *)
Definition decode_stage (text : jstr) : option jstr :=
  let s1 := strip BIDI_CONTROL_CHARS (strip INVISIBLE_CHARS text) in
  let s2 := url_rounds 3 s1 in
  let s3 := strip BIDI_CONTROL_CHARS (strip INVISIBLE_CHARS s2) in
  let s4 := fold_left (fun acc er => replace_ci (S (List.length acc)) (fst er) (snd er) acc)
                      htmlEntities s3 in
  match replace_numeric true (S (List.length s4)) s4 with
  | None => None
  | Some s5 => replace_numeric false (S (List.length s5)) s5
  end.

Section Pipeline.
(** [String.prototype.normalize('NFKC')], taken as given. *)
Variable nfkc : jstr -> jstr.

(** [normalizeForPatternMatching(text)]; [None] when it throws. *)
Definition normalizeForPatternMatching (text : jstr) : option jstr :=
  match decode_stage text with
  | None => None
  | Some s6 => Some (trim (collapse_ws (normalizeHomoglyphs (nfkc s6))))
  end.
End Pipeline.

End Normalize.

(* ================================================================== *)
(** * Sample inputs *)

Module Samples.

(** An expired, unrevoked grant whose pattern is [read_*]. *)
Definition expired_grant : Sessions.Session :=
  {| Sessions.id := s2j "s1"; Sessions.scope := Sessions.tool;
     Sessions.pattern := s2j "read_*"; Sessions.server := Some (s2j "fs");
     Sessions.createdAt := 0; Sessions.expiresAt := 100; Sessions.useCount := 0;
     Sessions.lastUsedAt := None; Sessions.revokedAt := None;
     Sessions.revokedBy := None; Sessions.revokeReason := None |}.

(** A configuration with one server [fs] that has no policies, and the
    engine built from it (no default action configured). *)
Definition fs_server : Policy.ServerConfig :=
  {| Policy.command := s2j "node"; Policy.policies := None |}.

Definition fs_config : Policy.OverwatchConfig :=
  {| Policy.servers := Some [(s2j "fs", fs_server)]; Policy.defaults_action := None |}.

Definition fs_engine : Policy.PolicyEngine := Policy.new_engine fs_config.

(** An active grant for exactly [write_file] on server [fs] (the row an
    "[5] Allow for 5 minutes" answer stores). *)
Definition write_grant : Sessions.Session :=
  {| Sessions.id := s2j "s2"; Sessions.scope := Sessions.exact;
     Sessions.pattern := s2j "write_file"; Sessions.server := Some (s2j "fs");
     Sessions.createdAt := 0; Sessions.expiresAt := 300000; Sessions.useCount := 0;
     Sessions.lastUsedAt := None; Sessions.revokedAt := None;
     Sessions.revokedBy := None; Sessions.revokeReason := None |}.

(** The schema [{"9": 1, "10": 2}] and a tool carrying it. *)
Definition numeric_keys_schema : Json.json :=
  Json.JObj [(s2j "9", Json.JNum 1); (s2j "10", Json.JNum 2)].

Definition numeric_keys_tool : Shadowing.Tool :=
  {| Shadowing.name := s2j "t"; Shadowing.description := None;
     Shadowing.inputSchema := Some numeric_keys_schema |}.

(** Descriptors whose [inputSchema] is an array, or [null]. *)
Definition array_schema_tool : Json.json :=
  Json.JObj [(s2j "name", Json.JStr (s2j "t")); (s2j "inputSchema", Json.JArr [])].

Definition null_schema_tool : Json.json :=
  Json.JObj [(s2j "name", Json.JStr (s2j "t")); (s2j "inputSchema", Json.JNull)].

(** A JSON-RPC notification as one line of text,
    [{"jsonrpc":"2.0","method":"ping"}], written with single quotes
    standing for double quotes. *)
Definition ping : jstr :=
  map (fun c => if c =? 39 then 34 else c) (s2j "{'jsonrpc':'2.0','method':'ping'}").

(** A policy that allows the tools matching [ts]. *)
Definition policy_of (ts : list jstr) : Policy.PolicyConfig :=
  {| Policy.tools := Some ts; Policy.p_action := Some (s2j "allow"); Policy.paths := None |}.


(** Letters and digits of ASCII. *)
Definition is_alnum (c : Z) : bool :=
  (48 <=? c) && (c <=? 57) || (65 <=? c) && (c <=? 90) || (97 <=? c) && (c <=? 122).

(** Words of ASCII letters and digits separated by single spaces, with no
    leading or trailing space; [after_space] says whether the previous
    character was a space (or there was none). *)
Fixpoint plain_from (after_space : bool) (s : jstr) : bool :=
  match s with
  | [] => negb after_space
  | c :: s' => if c =? 32 then negb after_space && plain_from true s'
               else is_alnum c && plain_from false s'
  end.

Definition plain_text (s : jstr) : bool := plain_from true s.

(** Characters of plain text. *)
Definition plain_char (c : Z) : Prop := is_alnum c = true \/ c = 32.

Definition ascii_text (s : jstr) : bool := forallb (fun c => (0 <=? c) && (c <? 128)) s.

(** [normalize('NFKC')] on ASCII text, where it changes nothing; it is
    only applied to ASCII strings below. *)
Definition nfkc_ascii (s : jstr) : jstr := s.

End Samples.

(** ** Policy validation of tool patterns ([validateToolPattern], policy-engine.ts) *)

Module PolicyGlob.
Import Policy.
Definition after_atom (parse : list Z -> option (list (atom * quant))) (a : atom)
  (rest : list Z) : option (list (atom * quant)) :=
  let '(q, rest') :=
    match rest with
    | 42 :: 63 :: r => (Star, r)
    | 42 :: r => (Star, r)
    | 63 :: 63 :: r => (Opt, r)
    | 63 :: r => (Opt, r)
    | r => (One, r)
    end in
  match parse rest' with
  | Some ps => Some ((a, q) :: ps)
  | None => None
  end.
Inductive ToolPatternError := EmptyPattern | PatternTooLong | InvalidCharacters | InvalidSyntax.
Definition validateToolPattern (pattern : jstr) : option ToolPatternError :=
  if Nat.eqb (List.length pattern) 0 then Some EmptyPattern
  else if 256 <? utf16_len pattern then Some PatternTooLong
  else if existsb (fun c => existsb (Z.eqb c) [60; 62; 34; 124; 59; 96; 36]) pattern
  then Some InvalidCharacters
  else match compile (patternToRegex pattern) with
       | Some _ => None
       | None => Some InvalidSyntax
       end.
End PolicyGlob.

(** ** More of the session store and manager (approval/terminal.ts) *)

Module SessionStore.
Import Sessions.

(** The test of the loop of [findMatch] under which a row is returned. *)
Definition covers (tool_name : jstr) (srv : option jstr) (s : Session) : bool :=
  match server s with
  | Some x => match srv with Some y => jstr_eqb x y | None => false end
  | None => true
  end &&
  match scope s with
  | exact => jstr_eqb (pattern s) tool_name
  | tool => matchPattern (pattern s) tool_name
  | server_scope => true
  end.

(** [revoke(id, revokedBy, reason)]: [UPDATE ... WHERE id = ? AND
    revoked_at IS NULL], returning [result.changes > 0]. *)
Definition revoke (now : Z) (id_ : jstr) (by_ : jstr) (reason : option jstr)
  (rows : list Session) : list Session * bool :=
  let '(rows', changes) := update_where (fun s => jstr_eqb (id s) id_) now by_ reason rows in
  (rows', 0 <? changes).

(** [prune()]: [DELETE FROM sessions WHERE expires_at <= ?], returning
    [result.changes]. *)
Definition prune (now : Z) (rows : list Session) : list Session * Z :=
  (filter (fun s => now <? expiresAt s) rows,
   Z.of_nat (List.length (filter (fun s => expiresAt s <=? now) rows))).

(** [list({ activeOnly: true })]: active rows, newest first. *)
Definition list_active (now : Z) (rows : list Session) : list Session :=
  fold_right insert_by_created [] (filter (is_active now) rows).

(** [SessionManager.revokeAll(revokedBy, reason)], with [by_] the value
    [revokedBy || 'user'] passed on to the store. *)
Definition revokeAll (now : Z) (by_ : jstr) (reason : option jstr) (rows : list Session)
  : list Session * Z :=
  fold_left (fun acc s =>
               let '(rows, count) := acc in
               let '(rows', ok) := revoke now (id s) by_ reason rows in
               (rows', if ok then count + 1 else count))
            (list_active now rows) (rows, 0).

End SessionStore.

(** ** Sending framed messages ([MCPTransport.send], transport.ts) *)

Module TransportSend.
Import Transport.

(** [send(message)]: the header [Content-Length: <n>\r\n\r\n], where [n]
    is [Buffer.byteLength(content)], then the content, in one write. *)
Definition send (message : Json.json) : jstr :=
  let content := Json.stringify message in
  let header := s2j "Content-Length: " ++
    Json.num_to_string (Z.of_nat (List.length (utf8_encode content))) ++ crlfcrlf in
  header ++ content.

End TransportSend.

(** ** Client message dispatch ([MCPProxy.handleClientMessage], mcp-proxy.ts) *)

Module ProxyDispatch.
Import Json.

(** [JSONRPCErrorCodes] *)
Definition REQUEST_TOO_LARGE : Z := -32004.
Definition CIRCUIT_BREAKER_OPEN : Z := -32005.

(** What [handleClientMessage] does with a message, in order: an error
    response sent to the client, a message forwarded upstream as it is, a
    tool call handed to [handleToolCall], or a request forwarded upstream
    with an entry in [pendingRequests] and its timeout timer. *)
Inductive Output :=
| ErrorReply (id : json) (code : Z)
| ForwardNotification (msg : json)
| InterceptToolCall (msg : json)
| ForwardRequest (msg : json).

Record Metrics := { requestsTotal : Z; circuitBreakerTrips : Z }.

(** [isRequest(msg)]: ['method' in msg && 'id' in msg && msg.id !== undefined].
    A parsed message holds no [undefined]; [in] throws ([None]) on a
    primitive. Neither key is inherited by objects or arrays. *)
Definition isRequest (msg : json) : option bool :=
  match msg with
  | JObj props =>
      Some (match js_get props (s2j "method"), js_get props (s2j "id") with
            | Some _, Some _ => true
            | _, _ => false
            end)
  | JArr _ => Some false
  | _ => None
  end.

(** [msg.id] *)
Definition msg_id (msg : json) : option json :=
  match msg with JObj props => js_get props (s2j "id") | _ => None end.

(** [isRequest(msg) && msg.id] *)
Definition request_with_id (msg : json) : option (option json) :=
  match isRequest msg with
  | None => None
  | Some false => Some None
  | Some true =>
      match msg_id msg with
      | Some id => Some (if Shadowing.truthy id then Some id else None)
      | None => Some None
      end
  end.

(** [handleClientMessage(msg)] at clock [now]; [None] when it throws. *)
Definition handleClientMessage (maxMessageSize now : Z) (cb : CB.CircuitBreaker)
  (mt : Metrics) (msg : json) : option (list Output * CB.CircuitBreaker * Metrics) :=
  let msgSize := utf16_len (stringify msg) in
  if maxMessageSize <? msgSize then
    match request_with_id msg with
    | None => None
    | Some (Some id) => Some ([ErrorReply id REQUEST_TOO_LARGE], cb, mt)
    | Some None => Some ([], cb, mt)
    end
  else
    let '(ok, cb') := CB.canExecute now cb in
    if negb ok then
      match request_with_id msg with
      | None => None
      | Some (Some id) =>
          Some ([ErrorReply id CIRCUIT_BREAKER_OPEN], cb',
                {| requestsTotal := requestsTotal mt;
                   circuitBreakerTrips := circuitBreakerTrips mt + 1 |})
      | Some None => Some ([], cb', mt)
      end
    else
      let mt' := {| requestsTotal := requestsTotal mt + 1;
                    circuitBreakerTrips := circuitBreakerTrips mt |} in
      match isRequest msg with
      | None => None
      | Some false => Some ([ForwardNotification msg], cb', mt')
      | Some true =>
          match msg with
          | JObj props =>
              match js_get props (s2j "method") with
              | Some (JStr m) =>
                  if jstr_eqb m (s2j "tools/call")
                  then Some ([InterceptToolCall msg], cb', mt')
                  else Some ([ForwardRequest msg], cb', mt')
              | _ => Some ([ForwardRequest msg], cb', mt')
              end
          | _ => Some ([ForwardRequest msg], cb', mt')
          end
      end.

End ProxyDispatch.

(** ** Nesting depth of a schema (tool-shadowing.ts) *)

Module SchemaDepth.
Import Json.

(** The nesting depth of a value: a scalar or an empty container has
    depth 0, a non-empty array or object one more than its deepest
    element. *)
Fixpoint nesting (v : json) : Z :=
  match v with
  | JArr items => fold_right Z.max 0 (map (fun it => 1 + nesting it) items)
  | JObj props => fold_right Z.max 0 (map (fun kv => 1 + nesting (snd kv)) props)
  | _ => 0
  end.

End SchemaDepth.

(** ** Signing webhook requests ([computeSignature], approval/webhook.ts) *)

Module WebhookSend.
Import Webhook.

(** [computeSignature(body)] of [WebhookApprovalHandler]: [''] without a
    secret, otherwise ['sha256='] and the HMAC-SHA256 of the body under
    the secret, each byte written as two lowercase hex digits. *)
Definition computeSignature (secret body : jstr) : jstr :=
  match secret with
  | [] => []
  | _ => sha256_prefix ++ Sha.hex (Sha.hmac_sha256 (utf8_encode secret) (utf8_encode body))
  end.

(** The [X-Overwatch-Signature] header [doWebhookRequest] sends: only
    when a secret is configured. *)
Definition signature_header (secret body : jstr) : option jstr :=
  match secret with
  | [] => None
  | _ => Some (computeSignature secret body)
  end.

End WebhookSend.

(** ** Registration rate limit ([checkRateLimit], tool-shadowing.ts) *)

Module RateLimit.

Record RateLimitConfig := { maxChecks : Z; windowMs : Z }.

Definition default_rate_limit : RateLimitConfig := {| maxChecks := 1000; windowMs := 60000 |}.

Record WindowState := { count : Z; windowStart : Z }.

(** [rateLimitState] ([Map<string, ...>]) and [metrics.rateLimitViolations]. *)
Record RateState := { windows : list (jstr * WindowState); rateLimitViolations : Z }.

(** [Map.prototype.set] on string keys: an existing key keeps its place. *)
Fixpoint map_set {A} (m : list (jstr * A)) (k : jstr) (v : A) : list (jstr * A) :=
  match m with
  | [] => [(k, v)]
  | (k', v') :: rest => if jstr_eqb k k' then (k', v) :: rest else (k', v') :: map_set rest k v
  end.

(** [checkRateLimit(server)] at clock [now]: [true] when the call is
    refused. *)
Definition checkRateLimit (cfg : RateLimitConfig) (now : Z) (server : jstr) (st : RateState)
  : bool * RateState :=
  let fresh := {| windows := map_set (windows st) server {| count := 1; windowStart := now |};
                  rateLimitViolations := rateLimitViolations st |} in
  match Json.js_get (windows st) server with
  | None => (false, fresh)
  | Some s =>
      if windowMs cfg <? now - windowStart s then (false, fresh)
      else if maxChecks cfg <=? count s
      then (true, {| windows := windows st; rateLimitViolations := rateLimitViolations st + 1 |})
      else (false, {| windows := map_set (windows st) server
                                   {| count := count s + 1; windowStart := windowStart s |};
                      rateLimitViolations := rateLimitViolations st |})
  end.

(** Successive [registerServerTools] calls for one server, at the given
    clock values: what [checkRateLimit] answers to each. *)
Fixpoint run_checks (cfg : RateLimitConfig) (server : jstr) (times : list Z) (st : RateState)
  : list bool * RateState :=
  match times with
  | [] => ([], st)
  | t :: ts =>
      let '(refused, st1) := checkRateLimit cfg t server st in
      let '(rs, st2) := run_checks cfg server ts st1 in (refused :: rs, st2)
  end.

End RateLimit.

(* ================================================================== *)
(** * Properties *)

(* ------------------------------------------------------------------ *)
(** ** Circuit breaker *)

Module CBFacts.
Import CB.

Lemma recordSuccess_config b : config (recordSuccess b) = config b.
Proof.
  unfold recordSuccess; destruct (state b); try reflexivity.
  destruct (successThreshold (config b) <=? successCount b + 1); reflexivity.
Qed.

(** From half-open, [k+1] successes in a row either close the breaker,
    once the counter has reached the threshold, or leave it half-open with
    the counter advanced by [k+1]. *)
Lemma half_open_successes b k :
  state b = half_open ->
  let b' := Nat.iter (S k) recordSuccess b in
  config b' = config b /\
  ((state b' = closed /\ failureCount b' = 0 /\
    successThreshold (config b) <= successCount b + Z.of_nat (S k)) \/
   (state b' = half_open /\ successCount b' = successCount b + Z.of_nat (S k) /\
    successCount b + Z.of_nat (S k) < successThreshold (config b))).
Proof.
  intros Hs. induction k as [|k IH]; cbn zeta in *.
  - simpl. unfold recordSuccess. rewrite Hs.
    destruct (Z.leb_spec (successThreshold (config b)) (successCount b + 1)).
    + split; [reflexivity|]. left. simpl. repeat split. lia.
    + split; [reflexivity|]. right. simpl. repeat split; lia.
  - change (Nat.iter (S (S k)) recordSuccess b)
      with (recordSuccess (Nat.iter (S k) recordSuccess b)).
    set (b0 := Nat.iter (S k) recordSuccess b) in *.
    rewrite recordSuccess_config.
    destruct IH as [Hc [[H1 [H2 H3]] | [H1 [H2 H3]]]]; split; auto.
    + left. unfold recordSuccess. rewrite H1. simpl. repeat split. lia.
    + unfold recordSuccess. rewrite H1, H2, Hc.
      destruct (Z.leb_spec (successThreshold (config b))
                           (successCount b + Z.of_nat (S k) + 1)).
      * left. simpl. repeat split. lia.
      * right. simpl. repeat split; lia.
Qed.

(** Claim C2: the circuit breaker's transitions under [canExecute],
    [recordSuccess] and [recordFailure]. When closed, [canExecute] allows
    the call and changes nothing. A success keeps the breaker closed and
    zeroes the failure count. A failure opens it exactly when the
    incremented failure count reaches the failure threshold. When open, a
    success changes nothing and a failure keeps it open. [canExecute]
    answers false and changes nothing until [resetTimeout] has elapsed
    since [lastFailureTime]; from then on it answers true and moves to
    half-open with the success count at zero. When half-open, [canExecute]
    allows the call and changes nothing. A failure reopens the breaker. A
    success closes it, with the failure count zeroed, exactly when the
    success count reaches the success threshold. Starting half-open with a
    zero success count, after k >= 1 successes in a row the breaker is
    closed iff [successThreshold <= k]. Every single operation changes the
    state only along one of the four edges closed->open, open->half_open,
    half_open->closed and half_open->open. *)
Theorem circuit_breaker_transitions :
  forall (b : CircuitBreaker) (now : Z),
  (state b = closed ->
     canExecute now b = (true, b) /\
     recordSuccess b = with_state b closed 0 (successCount b) (lastFailureTime b) /\
     recordFailure now b =
       with_state b (if failureThreshold (config b) <=? failureCount b + 1
                     then open_ else closed)
                  (failureCount b + 1) (successCount b) now) /\
  (state b = open_ ->
     canExecute now b =
       (if resetTimeout (config b) <=? now - lastFailureTime b
        then (true, with_state b half_open (failureCount b) 0 (lastFailureTime b))
        else (false, b)) /\
     recordSuccess b = b /\
     recordFailure now b = with_state b open_ (failureCount b + 1) (successCount b) now) /\
  (state b = half_open ->
     canExecute now b = (true, b) /\
     recordSuccess b =
       (if successThreshold (config b) <=? successCount b + 1
        then with_state b closed 0 (successCount b + 1) (lastFailureTime b)
        else with_state b half_open (failureCount b) (successCount b + 1)
                        (lastFailureTime b)) /\
     recordFailure now b = with_state b open_ (failureCount b + 1) (successCount b) now) /\
  (state b = half_open -> successCount b = 0 -> forall k : nat, (1 <= k)%nat ->
     (state (Nat.iter k recordSuccess b) = closed <->
      successThreshold (config b) <= Z.of_nat k)) /\
  (forall o : op, allowed_edge (state b) (state (apply_op o b))).
Proof.
  intros b now.
  split; [|split; [|split; [|split]]].
  - intros H. unfold canExecute, recordSuccess, recordFailure. rewrite H.
    repeat split; destruct (failureThreshold (config b) <=? failureCount b + 1); reflexivity.
  - intros H. unfold canExecute, recordSuccess, recordFailure. rewrite H.
    repeat split; try (destruct b; reflexivity).
  - intros H. unfold canExecute, recordSuccess, recordFailure. rewrite H.
    repeat split.
  - intros H H0 k Hk. destruct k as [|k]; [lia|].
    destruct (half_open_successes b k H) as [_ [[H1 [_ H3]] | [H1 [_ H3]]]];
      rewrite H0 in H3.
    + split; [intros; lia | intros; exact H1].
    + split; [intros E; rewrite H1 in E; discriminate | intros; lia].
  - intros o. unfold allowed_edge.
    destruct o as [t | | t]; simpl;
      unfold canExecute, recordSuccess, recordFailure;
      destruct (state b) eqn:Hs; simpl;
      repeat match goal with |- context [if ?c then _ else _] => destruct c end;
      simpl; rewrite ?Hs; tauto.
Qed.

End CBFacts.

(* ------------------------------------------------------------------ *)
(** ** Bulk revocation of session grants *)

Module SessionFacts.
Import Sessions Samples.

Lemma update_where_rows sel now by_ reason rows i s :
  nth_error rows i = Some s ->
  nth_error (fst (update_where sel now by_ reason rows)) i =
    Some (if sel s && is_unrevoked s then revoke_row now by_ (reason_col reason) s else s).
Proof.
  intros H. unfold update_where. simpl.
  rewrite nth_error_map, H. reflexivity.
Qed.

Lemma update_where_length sel now by_ reason rows :
  List.length (fst (update_where sel now by_ reason rows)) = List.length rows.
Proof. unfold update_where. simpl. apply length_map. Qed.

(** Claim C8, counterexample: at clock 200 the grant above has expired,
    so it is not active. Still, [revokeByPattern] and [revokeByServer]
    each stamp a revocation on it and count it. *)
Lemma revoke_counts_expired_grant :
  is_active 200 expired_grant = false /\
  revokeByPattern 200 (s2j "read_*") (s2j "admin") None [expired_grant] =
    ([revoke_row 200 (s2j "admin") None expired_grant], 1) /\
  revokeByServer 200 (s2j "fs") (s2j "admin") None [expired_grant] =
    ([revoke_row 200 (s2j "admin") None expired_grant], 1).
Proof. vm_compute. repeat split. Qed.

(** Claim C8 (amended): [revokeByPattern] and [revokeByServer] revoke
    exactly the grants that are not already revoked and whose stored
    pattern (respectively server) equals the argument. Expired grants are
    included. A grant with no server never matches [revokeByServer]. Each
    revoked grant gets [revoked_at = now], [revoked_by] and
    [revoke_reason = reason || null], and its other fields are kept. Each
    function returns the number of grants it revoked. Every other grant is
    left unchanged, and the table keeps its length and order. *)
Theorem revoke_by_pattern_and_server :
  forall (now : Z) (arg by_ : jstr) (reason : option jstr) (rows : list Session),
  (let '(rows', n) := revokeByPattern now arg by_ reason rows in
   List.length rows' = List.length rows /\
   (forall i s, nth_error rows i = Some s ->
      nth_error rows' i =
        Some (if jstr_eqb (pattern s) arg && is_unrevoked s
              then revoke_row now by_ (reason_col reason) s else s)) /\
   n = Z.of_nat (List.length
         (filter (fun s => jstr_eqb (pattern s) arg && is_unrevoked s) rows))) /\
  (let '(rows', n) := revokeByServer now arg by_ reason rows in
   List.length rows' = List.length rows /\
   (forall i s, nth_error rows i = Some s ->
      nth_error rows' i =
        Some (if match server s with Some x => jstr_eqb x arg | None => false end
                 && is_unrevoked s
              then revoke_row now by_ (reason_col reason) s else s)) /\
   n = Z.of_nat (List.length
         (filter (fun s => match server s with Some x => jstr_eqb x arg | None => false end
                           && is_unrevoked s) rows))).
Proof.
  intros now arg by_ reason rows. split.
  - unfold revokeByPattern.
    destruct (update_where _ now by_ reason rows) as [rows' n] eqn:E.
    pose proof (update_where_length (fun s => jstr_eqb (pattern s) arg) now by_ reason rows) as HL.
    pose proof (update_where_rows (fun s => jstr_eqb (pattern s) arg) now by_ reason rows) as HR.
    rewrite E in HL, HR. simpl in HL, HR.
    unfold update_where in E. injection E as _ En.
    split; [exact HL | split; [exact HR | symmetry; exact En]].
  - unfold revokeByServer.
    set (sel := fun s => match server s with Some x => jstr_eqb x arg | None => false end).
    destruct (update_where sel now by_ reason rows) as [rows' n] eqn:E.
    pose proof (update_where_length sel now by_ reason rows) as HL.
    pose proof (update_where_rows sel now by_ reason rows) as HR.
    rewrite E in HL, HR. simpl in HL, HR.
    unfold update_where in E. injection E as _ En.
    split; [exact HL | split; [exact HR | symmetry; exact En]].
Qed.

End SessionFacts.

(* ------------------------------------------------------------------ *)
(** ** Webhook signature verification *)

Module WebhookFacts.
Import Webhook Sha.

Lemma word_bytes_range x : Forall (fun b => 0 <= b < 256) (Sha.word_bytes x).
Proof.
  unfold Sha.word_bytes.
  repeat constructor; apply Z.mod_pos_bound; lia.
Qed.

Lemma sha256_range_length msg :
  List.length (Sha.sha256 msg) = 32%nat /\ Forall (fun b => 0 <= b < 256) (Sha.sha256 msg).
Proof.
  unfold Sha.sha256, Sha.digest_bytes.
  set (st := fold_left _ _ _). split.
  - unfold Sha.word_bytes. reflexivity.
  - rewrite !Forall_app. repeat split; apply word_bytes_range.
Qed.

Lemma hex_digit_char d : 0 <= d < 16 -> is_hex_char (Sha.hex_digit d).
Proof.
  intros H. unfold Sha.hex_digit, is_hex_char.
  destruct (Z.ltb_spec d 10); lia.
Qed.

Lemma hex_props bs :
  Forall (fun b => 0 <= b < 256) bs ->
  List.length (Sha.hex bs) = (2 * List.length bs)%nat /\ Forall is_hex_char (Sha.hex bs).
Proof.
  induction bs as [|b bs IH]; intros H; [split; [reflexivity | constructor]|].
  inversion H as [|? ? Hb Hbs]; subst. destruct (IH Hbs) as [IH1 IH2].
  unfold Sha.hex in *. simpl flat_map. split.
  - simpl. rewrite IH1. lia.
  - constructor; [|constructor; [|exact IH2]]; apply hex_digit_char.
    + split; [apply Z.div_pos; lia | apply Z.div_lt_upper_bound; lia].
    + apply Z.mod_pos_bound; lia.
Qed.

Lemma expected_sig_shape body secret :
  List.length (expected_sig body secret) = 64%nat /\
  Forall is_hex_char (expected_sig body secret).
Proof.
  unfold expected_sig, Sha.hmac_sha256.
  match goal with |- context [Sha.hex (Sha.sha256 ?m)] => set (msg := m) end.
  destruct (sha256_range_length msg) as [HL HR].
  destruct (hex_props _ HR) as [H1 H2]. split; [rewrite H1, HL; reflexivity | exact H2].
Qed.

Lemma ascii_utf8 s : Forall (fun c => 0 <= c < 128) s -> utf8_encode s = s.
Proof.
  induction 1 as [|c s Hc _ IH]; [reflexivity|].
  unfold utf8_encode in *. simpl. rewrite IH.
  unfold utf8_char. destruct (Z.ltb_spec c 128); [reflexivity | lia].
Qed.

Lemma ascii_utf16_len s : Forall (fun c => 0 <= c < 128) s -> utf16_len s = Z.of_nat (List.length s).
Proof.
  induction 1 as [|c s Hc _ IH]; [reflexivity|].
  unfold utf16_len in *. simpl. rewrite IH. destruct (Z.ltb_spec 65535 c); lia.
Qed.

Lemma utf16_len_nonneg s : 0 <= utf16_len s.
Proof.
  induction s as [|c s IH]; [unfold utf16_len; simpl; lia|].
  unfold utf16_len in *. simpl. destruct (65535 <? c); lia.
Qed.

Lemma utf16_len_app a b : utf16_len (a ++ b) = utf16_len a + utf16_len b.
Proof.
  unfold utf16_len. rewrite fold_right_app. induction a as [|c a IH]; simpl.
  - rewrite <- (Z.add_0_l (fold_right _ 0 b)) at 1. reflexivity.
  - rewrite IH. lia.
Qed.

(** The lead byte of a non-ASCII character's UTF-8 encoding is at least
    128, so it is never a hex digit. *)
Lemma utf8_char_head c :
  128 <= c -> exists b rest, utf8_char c = b :: rest /\ 128 <= b.
Proof.
  intros H. unfold utf8_char.
  destruct (Z.ltb_spec c 128); [lia|].
  destruct (Z.ltb_spec c 2048).
  { eexists _, _; split; [reflexivity|]. pose proof (Z.div_pos c 64). lia. }
  destruct ((55296 <=? c) && (c <=? 57343)).
  { eexists _, _; split; [reflexivity | lia]. }
  destruct (Z.ltb_spec c 65536).
  - eexists _, _; split; [reflexivity|]. pose proof (Z.div_pos c 4096). lia.
  - eexists _, _; split; [reflexivity|]. pose proof (Z.div_pos c 262144). lia.
Qed.

(** If the zero-padded UTF-8 prefix of [s] equals a string [e] of
    nonzero ASCII characters, then [s] starts with [e]. *)
Lemma padded_prefix_ascii s e :
  Forall (fun c => 0 < c < 128) e ->
  firstn (List.length e) (utf8_encode s) ++
    repeat 0 (List.length e - List.length (firstn (List.length e) (utf8_encode s))) = e ->
  firstn (List.length e) s = e.
Proof.
  revert e. induction s as [|c s IH]; intros e He Heq.
  - simpl in Heq. rewrite firstn_nil in *. simpl in Heq.
    destruct e as [|x e']; [reflexivity|].
    simpl in Heq. injection Heq as Hx _. inversion He; subst. lia.
  - destruct e as [|x e']; [reflexivity|].
    inversion He as [|? ? Hx He']; subst.
    unfold utf8_encode in Heq. simpl flat_map in Heq.
    destruct (Z.ltb_spec c 128) as [Hc|Hc].
    + assert (Hu : utf8_char c = [c]) by (unfold utf8_char; rewrite (proj2 (Z.ltb_lt c 128) Hc); reflexivity).
      rewrite Hu in Heq. simpl in Heq. injection Heq as Hcx Hrest. subst x.
      simpl. f_equal. apply IH; assumption.
    + destruct (utf8_char_head c Hc) as [b [rest [Hu Hb]]].
      rewrite Hu in Heq. simpl in Heq. injection Heq as Hbx _. lia.
Qed.

Lemma timingSafeEqual_eq a b : timingSafeEqual a b = true -> a = b.
Proof.
  unfold timingSafeEqual. rewrite andb_true_iff, Nat.eqb_eq. intros [H1 H2].
  revert b H1 H2. induction a as [|x a IH]; intros [|y b] H1 H2; simpl in *;
    try discriminate; try reflexivity.
  rewrite andb_true_iff, Z.eqb_eq in H1. destruct H1 as [-> H1].
  f_equal. apply IH; [exact H1 | lia].
Qed.

Lemma timingSafeEqual_refl a : timingSafeEqual a a = true.
Proof.
  unfold timingSafeEqual. rewrite Nat.eqb_refl, andb_true_r.
  induction a as [|x a IH]; simpl; [reflexivity|]. rewrite Z.eqb_refl. exact IH.
Qed.

Lemma hex_char_ascii c : is_hex_char c -> 0 < c < 128.
Proof. unfold is_hex_char. lia. Qed.

Lemma utf16_len_zero s : utf16_len s = 0 -> s = [].
Proof.
  destruct s as [|c s]; [reflexivity|]. intros H.
  pose proof (utf16_len_nonneg s). unfold utf16_len in *. simpl in H.
  destruct (65535 <? c); lia.
Qed.

Lemma hex_chars_ascii l : Forall is_hex_char l -> Forall (fun c => 0 < c < 128) l.
Proof. apply Forall_impl, hex_char_ascii. Qed.

Lemma hex_chars_ascii' l : Forall is_hex_char l -> Forall (fun c => 0 <= c < 128) l.
Proof. apply Forall_impl. intros c Hc. apply hex_char_ascii in Hc. lia. Qed.

(** The core of [verifyWebhookSignature]: the length test and the
    comparison of the padded buffer succeed exactly on the expected
    digest. *)
Lemma provided_check_iff p e :
  List.length e = 64%nat -> Forall is_hex_char e ->
  ((utf16_len p =? 64) && timingSafeEqual (provided_buffer (utf8_encode p)) (utf8_encode e)
   = true <-> p = e).
Proof.
  intros HL HF.
  rewrite (ascii_utf8 e (hex_chars_ascii' e HF)).
  split.
  - rewrite andb_true_iff, Z.eqb_eq. intros [Hlen Hts].
    apply timingSafeEqual_eq in Hts. unfold provided_buffer in Hts.
    rewrite <- HL in Hts.
    apply padded_prefix_ascii in Hts; [| apply hex_chars_ascii; exact HF].
    rewrite <- (firstn_skipn (List.length e) p) in Hlen |- *.
    rewrite Hts in Hlen |- *.
    rewrite utf16_len_app, (ascii_utf16_len e (hex_chars_ascii' e HF)), HL in Hlen.
    change (Z.of_nat 64) with 64 in Hlen.
    rewrite HL, (utf16_len_zero (skipn 64 p)) by lia.
    apply app_nil_r.
  - intros ->. rewrite (ascii_utf8 e (hex_chars_ascii' e HF)).
    rewrite (ascii_utf16_len e (hex_chars_ascii' e HF)), HL. simpl.
    unfold provided_buffer. rewrite <- HL, firstn_all, Nat.sub_diag, app_nil_r.
    apply timingSafeEqual_refl.
Qed.

(** Claim C7: [verifyWebhookSignature] returns true exactly when a
    non-empty signature and a non-empty secret are given and the
    signature, with a leading [sha256=] removed if present, equals the
    expected digest. The expected digest is the lowercase hex HMAC-SHA256
    of the body under the secret, 64 characters long. So the header
    [sha256=] followed by that digest is accepted. A digest that differs
    in any character is refused, and so is one whose length is not 64. The
    detailed variant reports a missing signature header, a missing secret,
    a header without the [sha256=] prefix, or a mismatch, and is valid
    exactly when the digest after the prefix is the expected one. *)
Theorem verify_webhook_signature_spec :
  forall (body secret : jstr) (signature : option jstr),
  (verifyWebhookSignature body signature secret = true <->
     exists sig, signature = Some sig /\ sig <> [] /\ secret <> [] /\
       (if starts_with sig sha256_prefix then skipn 7 sig else sig) = expected_sig body secret) /\
  utf16_len (expected_sig body secret) = 64 /\
  Forall is_hex_char (expected_sig body secret) /\
  (secret <> [] ->
     verifyWebhookSignature body (Some (sha256_prefix ++ expected_sig body secret)) secret = true) /\
  (forall sig, utf16_len (if starts_with sig sha256_prefix then skipn 7 sig else sig) <> 64 ->
     verifyWebhookSignature body (Some sig) secret = false) /\
  (signature = None \/ signature = Some [] ->
     verifyWebhookSignatureDetailed body signature secret =
       {| valid := false; reason := Some MissingSignature |}) /\
  (forall sig, signature = Some sig -> sig <> [] -> secret = [] ->
     verifyWebhookSignatureDetailed body signature secret =
       {| valid := false; reason := Some MissingSecret |}) /\
  (forall sig, signature = Some sig -> sig <> [] -> secret <> [] ->
     starts_with sig sha256_prefix = false ->
     verifyWebhookSignatureDetailed body signature secret =
       {| valid := false; reason := Some InvalidFormat |}) /\
  (forall sig, signature = Some sig -> sig <> [] -> secret <> [] ->
     starts_with sig sha256_prefix = true ->
     verifyWebhookSignatureDetailed body signature secret =
       if jstr_eqb (skipn 7 sig) (expected_sig body secret)
       then {| valid := true; reason := None |}
       else {| valid := false; reason := Some SignatureMismatch |}).
Proof.
  intros body secret signature.
  destruct (expected_sig_shape body secret) as [HL HF].
  assert (Hcore : forall sig, sig <> [] -> secret <> [] ->
            verifyWebhookSignature body (Some sig) secret = true <->
            (if starts_with sig sha256_prefix then skipn 7 sig else sig) =
              expected_sig body secret).
  { intros sig Hs Hk. unfold verifyWebhookSignature.
    destruct sig as [|c sig']; [congruence|]. destruct secret as [|k secret']; [congruence|].
    apply provided_check_iff; assumption. }
  assert (Hjeq : forall a b, jstr_eqb a b = true <-> a = b).
  { induction a as [|x a IH]; intros [|y b]; simpl; split; intros H;
      try discriminate; try reflexivity.
    - rewrite andb_true_iff, Z.eqb_eq, IH in H. destruct H; subst; reflexivity.
    - injection H as -> ->. rewrite Z.eqb_refl. simpl. apply IH. reflexivity. }
  split; [|split; [|split; [|split; [|split; [|split; [|split; [|split]]]]]]].
  - split.
    + intros H. destruct signature as [sig|]; [|discriminate].
      assert (Hs : sig <> []) by (intros ->; discriminate).
      assert (Hk : secret <> []) by (intros ->; unfold verifyWebhookSignature in H;
                                      destruct sig; discriminate).
      exists sig. repeat split; auto. apply Hcore; assumption.
    + intros [sig [-> [Hs [Hk He]]]]. apply Hcore; assumption.
  - rewrite (ascii_utf16_len _ (hex_chars_ascii' _ HF)), HL. reflexivity.
  - exact HF.
  - intros Hk. apply Hcore; [discriminate | exact Hk |]. reflexivity.
  - intros sig Hlen. destruct sig as [|c sig']; [reflexivity|].
    destruct (verifyWebhookSignature body (Some (c :: sig')) secret) eqn:E; [|exact E].
    exfalso. destruct secret as [|k secret'];
      [unfold verifyWebhookSignature in E; discriminate|].
    apply Hcore in E; [| discriminate | discriminate].
    apply Hlen. transitivity (utf16_len (expected_sig body (k :: secret')));
      [exact (f_equal utf16_len E)|].
    rewrite (ascii_utf16_len _ (hex_chars_ascii' _ HF)), HL. reflexivity.
  - intros [-> | ->]; reflexivity.
  - intros sig -> Hs ->. destruct sig; [congruence | reflexivity].
  - intros sig -> Hs Hk Hp. unfold verifyWebhookSignatureDetailed.
    destruct sig as [|c sig']; [congruence|]. destruct secret as [|k secret']; [congruence|].
    rewrite Hp. reflexivity.
  - intros sig -> Hs Hk Hp.
    assert (Hv := Hcore sig Hs Hk). rewrite Hp in Hv.
    unfold verifyWebhookSignatureDetailed.
    destruct sig as [|c sig']; [congruence|]. destruct secret as [|k secret']; [congruence|].
    rewrite Hp. simpl negb. cbv iota.
    destruct (verifyWebhookSignature _ _ _) eqn:E2;
      destruct (jstr_eqb (skipn 7 (c :: sig')) (expected_sig body (k :: secret'))) eqn:E;
      try reflexivity.
    + assert (X := proj1 Hv eq_refl). rewrite <- Hjeq in X. congruence.
    + apply Hjeq, Hv in E. discriminate.
Qed.

End WebhookFacts.

(* ------------------------------------------------------------------ *)
(** ** Tool calls and session grants *)

Module ProxyFacts.
Import Samples.

(** Claim C1 (code bug): [handleToolCall] never reads the session store.
    For every call whose policy decision is [prompt], the first effect is
    a request to the approval handler. The proxy holds no session store
    and drops the [sessionDuration] of the handler's answer. The concrete
    case: an active grant for [write_file] on [fs] exists, and
    [findMatch] returns it. Still, a [write_file] call on [fs] asks the
    approval handler. When the handler declines, the call is denied. *)
Theorem handleToolCall_ignores_session_grants :
  (forall engine srv fm outcome tool args d,
     Policy.evaluate engine srv tool args = Some d ->
     Policy.action d = Policy.prompt ->
     exists rest, Proxy.handleToolCall engine srv fm outcome tool args =
                  Some (Proxy.ApprovalRequested tool (Policy.riskLevel d) :: rest)) /\
  Sessions.findMatch 1000 (s2j "write_file") (Some (s2j "fs")) [write_grant] =
    Some write_grant /\
  Proxy.handleToolCall fs_engine (s2j "fs") Proxy.fm_closed (Proxy.Resolved false)
    (s2j "write_file") [] =
    Some [Proxy.ApprovalRequested (s2j "write_file") Policy.write;
          Proxy.ReplyDenied Policy.write; Proxy.AuditDenied].
Proof.
  split; [|split; [vm_compute; reflexivity | vm_compute; reflexivity]].
  intros engine srv fm outcome tool args d He Ha.
  unfold Proxy.handleToolCall. rewrite He, Ha.
  destruct (Proxy.requestApproval fm outcome); eexists; reflexivity.
Qed.

End ProxyFacts.

(* ------------------------------------------------------------------ *)
(** ** Tool fingerprints *)

Module HashFacts.
Import Samples Shadowing.

(** Claim C3 (code bug): the schema is not serialized with its keys in
    lexicographic order. [sortObject] inserts the keys in sorted order,
    but [JSON.stringify] writes the array-index keys ["9"] and ["10"]
    first, in numeric order. So the serialization of [{"9":1,"10":2}] is
    [{"9":1,"10":2}], while the lexicographic one is [{"10":2,"9":1}]. The
    combined hash of a tool with that schema therefore differs from the
    hash the claim describes. *)
Theorem combined_hash_not_lexicographic :
  Json.stringify (Json.sortObject numeric_keys_schema) <> canonical_lex numeric_keys_schema /\
  computeCombinedHash numeric_keys_tool <> claimed_hash numeric_keys_tool.
Proof. split; vm_compute; discriminate. Qed.

End HashFacts.

(* ------------------------------------------------------------------ *)
(** ** Descriptor validation *)

Module ValidateFacts.
Import Samples Shadowing.

(** Claim C4 (code bug): [validateTool] accepts a descriptor whose
    [inputSchema] is an array or [null], since [typeof] of both is
    ['object']. The claim's conditions reject both. Also, registration
    keys its reports by [tool?.name ?? '<invalid>']. Two malformed
    descriptors without a name are both rejected and counted, but leave
    a single report, whatever is done with valid descriptors. *)
Theorem validateTool_accepts_non_mapping_schema :
  validateTool array_schema_tool = Valid /\ claimed_malformed array_schema_tool = true /\
  validateTool null_schema_tool = Valid /\ claimed_malformed null_schema_tool = true /\
  (forall on_valid,
     let st := register_loop on_valid (s2j "srv") [Json.JObj []; Json.JObj []] empty_reg in
     registry st = [] /\ malformedToolsRejected st = 2 /\ List.length (toolReports st) = 1%nat).
Proof.
  repeat split; try (vm_compute; reflexivity).
Qed.

End ValidateFacts.

(* ------------------------------------------------------------------ *)
(** ** Message framing *)

Module TransportFacts.
Import Samples Transport.

(** While no Content-Length header is pending and the buffer holds no
    [\r\n\r\n] and is within the header limit, [processBuffer] returns at
    once: it emits nothing and keeps the buffer. *)
Lemma processBuffer_waits_for_header c st :
  contentLength st = None -> indexOf (buffer st) crlfcrlf = None ->
  utf16_len (buffer st) <= maxHeaderSize c ->
  processBuffer c st = (st, []).
Proof.
  intros Hc Hi Hs. unfold processBuffer.
  replace (2 * List.length (buffer st) + 2)%nat with (S (2 * List.length (buffer st) + 1))
    by lia.
  simpl process. unfold step. rewrite Hc, Hi.
  destruct (Z.ltb_spec (maxHeaderSize c) (utf16_len (buffer st))); [lia | reflexivity].
Qed.

(** Claim C5 (code bug): the line-delimited fallback is only tried after a
    [\r\n\r\n] has been found in the buffer. Without one, [processBuffer]
    returns before looking for a newline. A stream consisting of the
    single complete JSON line [ping] followed by a newline therefore
    yields no message: the transport emits nothing and keeps waiting with
    the line in its buffer. *)
Theorem ndjson_line_without_header_is_dropped :
  JsonParse.parse ping <> None /\
  feed default_config [ping ++ [10]] initial =
    ({| buffer := ping ++ [10]; contentLength := None |}, []).
Proof.
  split.
  - vm_compute. discriminate.
  - unfold feed, on_data.
    match goal with |- context [if ?t then _ else _] => replace t with false by (vm_compute; reflexivity) end.
    rewrite processBuffer_waits_for_header; try (vm_compute; reflexivity).
    vm_compute. discriminate.
Qed.

End TransportFacts.

(* ------------------------------------------------------------------ *)
(** ** Tool patterns of policies *)

Module PatternFacts.
Import Samples Policy.

(** Claim C9 (code bug): [patternToRegex] translates [*] to [.*] but
    leaves [?] as it is, and [matchesPolicy] only uses the regex when the
    pattern contains [*]. So the pattern [read_?ile] compiles to
    [^read_?ile$], not [^read_.ile$]. As a policy pattern it does not
    match [read_file], which the claimed matcher accepts. In [get?*] the
    [?] acts as a regex quantifier, so the pattern matches [gex], which
    the claimed matcher refuses. *)
Theorem question_mark_not_translated :
  patternToRegex (s2j "read_?ile") = s2j "^read_?ile$" /\
  matchesPolicy (policy_of [s2j "read_?ile"]) (s2j "read_file") = Some false /\
  glob_match (s2j "read_?ile") (s2j "read_file") = true /\
  matchesPolicy (policy_of [s2j "get?*"]) (s2j "gex") = Some true /\
  glob_match (s2j "get?*") (s2j "gex") = false.
Proof. repeat split; vm_compute; reflexivity. Qed.

End PatternFacts.

(* ------------------------------------------------------------------ *)
(** ** Servers without configuration *)

Module EvaluateFacts.
Import Samples Policy.

(** Claim C10 (code bug): the lookup [this.config.servers?.[serverName]]
    also finds the properties every object inherits from
    [Object.prototype]. So a server named [constructor] is not treated as
    unconfigured. [evaluate] infers the decision from the tool name:
    [read_file] is allowed with risk [read]. A server name with no entry
    and no inherited property, such as [github], gets the default action
    [prompt] with risk [write]. *)
Theorem evaluate_inherited_server_name :
  lookup_server fs_config (s2j "constructor") = Inherited /\
  evaluate fs_engine (s2j "constructor") (s2j "read_file") [] =
    Some (mk allow read "Read operation inferred from tool name") /\
  evaluate fs_engine (s2j "github") (s2j "read_file") [] =
    Some (mk prompt write "No server configuration found").
Proof. repeat split; vm_compute; reflexivity. Qed.

End EvaluateFacts.

(* ------------------------------------------------------------------ *)
(** ** Description normalization *)

Module NormalizeFacts.
Import Samples Normalize.

Lemma plain_char_range c : plain_char c -> 32 <= c < 128 /\ c <> 37 /\ c <> 38 /\ c <> 43.
Proof.
  unfold plain_char, is_alnum. intros [H | ->]; [|lia].
  repeat rewrite orb_true_iff in H. repeat rewrite andb_true_iff in H.
  repeat rewrite Z.leb_le in H. lia.
Qed.

Lemma plain_from_chars b s : plain_from b s = true -> Forall plain_char s.
Proof.
  revert b. induction s as [|c s IH]; intros b H; [constructor|].
  simpl in H. destruct (Z.eqb_spec c 32).
  - apply andb_true_iff in H as [_ H]. constructor; [right; exact e | exact (IH _ H)].
  - apply andb_true_iff in H as [Ha H]. constructor; [left; exact Ha | exact (IH _ H)].
Qed.

Lemma mem_high c l : Forall (fun x => 128 <= x) l -> c < 128 -> mem c l = false.
Proof.
  intros Hl Hc. unfold mem. apply not_true_iff_false. rewrite existsb_exists.
  intros [x [Hx Heq]]. apply Z.eqb_eq in Heq. subst x.
  rewrite Forall_forall in Hl. specialize (Hl c Hx). lia.
Qed.

Lemma invisible_high : Forall (fun x => 128 <= x) INVISIBLE_CHARS.
Proof. unfold INVISIBLE_CHARS. repeat constructor; lia. Qed.

Lemma bidi_high : Forall (fun x => 128 <= x) BIDI_CONTROL_CHARS.
Proof. unfold BIDI_CONTROL_CHARS. repeat constructor; lia. Qed.

Lemma strip_low l s :
  Forall (fun x => 128 <= x) l -> Forall plain_char s -> strip l s = s.
Proof.
  intros Hl. induction 1 as [|c s Hc _ IH]; [reflexivity|].
  unfold strip in *. simpl. rewrite mem_high; [| exact Hl | apply plain_char_range in Hc; lia].
  simpl. rewrite IH. reflexivity.
Qed.

Lemma replace_char_absent x by_ s : ~ In x s -> Policy.replace_char x by_ s = s.
Proof.
  induction s as [|c s IH]; intros H; [reflexivity|].
  unfold Policy.replace_char in *. simpl.
  destruct (Z.eqb_spec c x); [subst; exfalso; apply H; left; reflexivity|].
  rewrite IH; [reflexivity | intros Hin; apply H; right; exact Hin].
Qed.

(** Destructs the integer [c] as far as the literal patterns of a match
    on it look. *)
Ltac split_literal c :=
  destruct c as [|c|c]; simpl;
  repeat match goal with
         | |- context [match ?p with xI _ => _ | xO _ => _ | xH => _ end] =>
             is_var p; destruct p; simpl
         end.

Lemma decode_step_other f c rest :
  c <> 37 ->
  decodeURIComponent (S f) (c :: rest) =
    match decodeURIComponent f rest with Some r => Some (c :: r) | None => None end.
Proof. intros H. split_literal c; try reflexivity. exfalso; apply H; reflexivity. Qed.

Lemma decode_plain f s : Forall plain_char s -> decodeURIComponent f s = Some s.
Proof.
  revert s. induction f as [|f IH]; intros s Hs; [reflexivity|].
  destruct s as [|c s]; [reflexivity|].
  inversion Hs as [|? ? Hc Hs']; subst.
  rewrite decode_step_other by (apply plain_char_range in Hc; lia).
  rewrite IH by exact Hs'. reflexivity.
Qed.

Lemma jstr_eqb_refl s : jstr_eqb s s = true.
Proof. induction s as [|c s IH]; simpl; [reflexivity|]. rewrite Z.eqb_refl. exact IH. Qed.

Lemma url_rounds_plain n s : Forall plain_char s -> url_rounds n s = s.
Proof.
  intros Hs. destruct n as [|n]; [reflexivity|]. simpl.
  rewrite replace_char_absent.
  - rewrite decode_plain by exact Hs. rewrite jstr_eqb_refl. reflexivity.
  - intros Hin. rewrite Forall_forall in Hs. apply Hs, plain_char_range in Hin. lia.
Qed.

Lemma lower_ascii_38 c : Transport.lower_ascii c = 38 -> c = 38.
Proof.
  unfold Transport.lower_ascii.
  destruct ((65 <=? c) && (c <=? 90)) eqn:E; [|auto].
  apply andb_true_iff in E as [E1 E2]. apply Z.leb_le in E1. lia.
Qed.

Lemma replace_ci_plain f entity rep s :
  hd 0 entity = 38 -> Forall plain_char s -> replace_ci f entity rep s = s.
Proof.
  intros He. revert s. induction f as [|f IH]; intros s Hs; [reflexivity|].
  destruct s as [|c s]; [reflexivity|].
  inversion Hs as [|? ? Hc Hs']; subst.
  destruct entity as [|x entity']; [discriminate|]. simpl in He. subst x.
  simpl. unfold Transport.lower_ascii at 2. simpl.
  destruct (Z.eqb_spec (Transport.lower_ascii c) 38) as [E|E].
  - apply lower_ascii_38 in E. apply plain_char_range in Hc. lia.
  - rewrite IH by exact Hs'. reflexivity.
Qed.

Lemma entities_plain ents s :
  Forall (fun er => hd 0 (fst er) = 38) ents -> Forall plain_char s ->
  fold_left (fun acc er => replace_ci (S (List.length acc)) (fst er) (snd er) acc)
            ents s = s.
Proof.
  intros He Hs. induction He as [|er ents Her _ IH]; [reflexivity|].
  cbn [fold_left]. rewrite replace_ci_plain by assumption. exact IH.
Qed.

Lemma htmlEntities_amp : Forall (fun er => hd 0 (fst er) = 38) htmlEntities.
Proof. unfold htmlEntities. repeat constructor. Qed.

Lemma numeric_step_other hex f c rest :
  c <> 38 ->
  replace_numeric hex (S f) (c :: rest) =
    match replace_numeric hex f rest with Some r => Some (c :: r) | None => None end.
Proof. intros H. split_literal c; try reflexivity. exfalso; apply H; reflexivity. Qed.

Lemma numeric_plain hex f s : Forall plain_char s -> replace_numeric hex f s = Some s.
Proof.
  revert s. induction f as [|f IH]; intros s Hs; [reflexivity|].
  destruct s as [|c s]; [reflexivity|].
  inversion Hs as [|? ? Hc Hs']; subst.
  rewrite numeric_step_other by (apply plain_char_range in Hc; lia).
  rewrite IH by exact Hs'. reflexivity.
Qed.

Lemma decode_stage_plain s : Forall plain_char s -> decode_stage s = Some s.
Proof.
  intros Hs. unfold decode_stage.
  rewrite (strip_low INVISIBLE_CHARS s invisible_high Hs).
  rewrite (strip_low BIDI_CONTROL_CHARS s bidi_high Hs).
  rewrite url_rounds_plain by exact Hs.
  rewrite (strip_low INVISIBLE_CHARS s invisible_high Hs).
  rewrite (strip_low BIDI_CONTROL_CHARS s bidi_high Hs).
  rewrite (entities_plain _ _ htmlEntities_amp Hs).
  rewrite !numeric_plain by exact Hs. reflexivity.
Qed.


Lemma homoglyph_keys_high : Forall (fun p => 128 <= fst p) HOMOGLYPHS.
Proof.
  apply Forall_forall. intros p Hp.
  assert (H : forallb (fun p => 128 <=? fst p) HOMOGLYPHS = true) by (vm_compute; reflexivity).
  rewrite forallb_forall in H. apply Z.leb_le, H, Hp.
Qed.

Lemma homoglyphs_low s : Forall (fun c => c < 128) s -> normalizeHomoglyphs s = s.
Proof.
  induction 1 as [|c s Hc _ IH]; [reflexivity|].
  unfold normalizeHomoglyphs in *. cbn [map]. rewrite IH.
  destruct (find (fun p => fst p =? c) HOMOGLYPHS) as [p|] eqn:E; [|reflexivity].
  apply find_some in E as [Hin Heq]. apply Z.eqb_eq in Heq.
  pose proof (proj1 (Forall_forall _ _) homoglyph_keys_high p Hin). simpl in *. lia.
Qed.

Lemma js_space_range c : is_js_space c = true -> c <= 32 \/ 160 <= c.
Proof.
  unfold is_js_space. intros H.
  repeat rewrite orb_true_iff in H. repeat rewrite andb_true_iff in H.
  repeat rewrite Z.leb_le in H. repeat rewrite Z.eqb_eq in H. lia.
Qed.

Lemma alnum_not_space c : is_alnum c = true -> is_js_space c = false.
Proof.
  intros H. apply not_true_iff_false. intros Hs. apply js_space_range in Hs.
  unfold is_alnum in H. repeat rewrite orb_true_iff in H. repeat rewrite andb_true_iff in H.
  repeat rewrite Z.leb_le in H. lia.
Qed.

Lemma collapse_plain s p q :
  plain_from p s = true -> (p = false -> q = false) -> collapse_from q s = s.
Proof.
  revert p q. induction s as [|c s IH]; intros p q H Hq; [reflexivity|].
  simpl in H |- *. destruct (Z.eqb_spec c 32).
  - subst c. apply andb_true_iff in H as [Hp H]. apply negb_true_iff in Hp.
    rewrite (Hq Hp). simpl. f_equal. apply (IH true true H). intros; discriminate.
  - apply andb_true_iff in H as [Ha H]. rewrite (alnum_not_space c Ha).
    f_equal. apply (IH false false H). auto.
Qed.

Lemma plain_from_step p c s : plain_from p (c :: s) = true -> exists p', plain_from p' s = true.
Proof.
  simpl. destruct (c =? 32); rewrite andb_true_iff; intros [_ H]; eexists; exact H.
Qed.

Lemma plain_last p s :
  plain_from p s = true -> match rev s with [] => True | c :: _ => is_alnum c = true end.
Proof.
  revert p. induction s as [|c s IH]; intros p H; [exact I|].
  simpl rev. destruct (plain_from_step p c s H) as [p' H'].
  specialize (IH p' H'). destruct (rev s) as [|c' r] eqn:E.
  - apply (f_equal (@rev Z)) in E. rewrite rev_involutive in E. subst s.
    simpl in H. destruct (Z.eqb_spec c 32).
    + rewrite andb_false_r in H. discriminate.
    + apply andb_true_iff in H as [Ha _]. exact Ha.
  - exact IH.
Qed.

Lemma trim_plain s : plain_text s = true -> trim s = s.
Proof.
  intros H. unfold trim.
  assert (H1 : trim_start s = s).
  { destruct s as [|c s']; [reflexivity|]. unfold plain_text in H. simpl in H |- *.
    destruct (Z.eqb_spec c 32); [discriminate|].
    apply andb_true_iff in H as [Ha _]. rewrite (alnum_not_space c Ha). reflexivity. }
  rewrite H1.
  pose proof (plain_last true s H) as Hl.
  destruct (rev s) as [|c r] eqn:E.
  { apply (f_equal (@rev Z)) in E. rewrite rev_involutive in E. subst s. reflexivity. }
  simpl. rewrite (alnum_not_space c Hl). rewrite <- E, rev_involutive. reflexivity.
Qed.

Lemma plain_ascii s : Forall plain_char s -> ascii_text s = true.
Proof.
  induction 1 as [|c s Hc _ IH]; [reflexivity|].
  simpl. rewrite IH, andb_true_r. apply plain_char_range in Hc.
  apply andb_true_iff. split; [apply Z.leb_le | apply Z.ltb_lt]; lia.
Qed.

Section WithNfkc.
Variable nfkc : jstr -> jstr.
Hypothesis nfkc_ascii_id : forall s, ascii_text s = true -> nfkc s = s.

Lemma normalize_plain s : plain_text s = true -> normalizeForPatternMatching nfkc s = Some s.
Proof.
  intros H. pose proof (plain_from_chars _ _ H) as Hc.
  unfold normalizeForPatternMatching. rewrite decode_stage_plain by exact Hc.
  rewrite nfkc_ascii_id by (apply plain_ascii; exact Hc).
  rewrite homoglyphs_low.
  - unfold collapse_ws. rewrite (collapse_plain s true false H) by auto.
    f_equal. apply trim_plain. exact H.
  - eapply Forall_impl; [| exact Hc]. intros c Hc'. apply plain_char_range in Hc'. lia.
Qed.
End WithNfkc.

(** Runs the pipeline on a literal input: the stage before NFKC is
    evaluated, NFKC is the identity on the ASCII result, and the rest is
    evaluated. *)
Ltac run_pipeline Hn :=
  unfold normalizeForPatternMatching;
  match goal with
  | |- context [decode_stage ?t] =>
      let v := eval vm_compute in (decode_stage t) in
      replace (decode_stage t) with v by (vm_compute; reflexivity)
  end;
  cbv iota beta;
  rewrite Hn by (vm_compute; reflexivity);
  vm_compute; reflexivity.

(** Claim C6, counterexample: normalizing [&amp;lt;] yields [&lt;], and
    normalizing that again yields [<]. So applying the normalization twice
    differs from applying it once. All strings involved are ASCII, where
    NFKC changes nothing. *)
Lemma normalize_twice_differs :
  normalizeForPatternMatching nfkc_ascii (s2j "&amp;lt;") = Some (s2j "&lt;") /\
  normalizeForPatternMatching nfkc_ascii (s2j "&lt;") = Some (s2j "<") /\
  s2j "&lt;" <> s2j "<".
Proof. vm_compute. split; [reflexivity | split; [reflexivity | discriminate]]. Qed.

(** Claim C6 (amended): the normalization is not idempotent, for every
    NFKC implementation that leaves ASCII text unchanged. An escaped
    entity is unescaped one level per application: [&amp;lt;] gives
    [&lt;], which gives [<]. The URL decoding stops after three rounds:
    [%25252541] gives [%41], which gives [A]. It does fix text made of
    ASCII letters and digits in words separated by single spaces, with no
    leading or trailing space. On such text, applying it twice equals
    applying it once. *)
Theorem normalize_not_idempotent :
  forall nfkc : jstr -> jstr,
  (forall s, ascii_text s = true -> nfkc s = s) ->
  normalizeForPatternMatching nfkc (s2j "&amp;lt;") = Some (s2j "&lt;") /\
  normalizeForPatternMatching nfkc (s2j "&lt;") = Some (s2j "<") /\
  normalizeForPatternMatching nfkc (s2j "%25252541") = Some (s2j "%41") /\
  normalizeForPatternMatching nfkc (s2j "%41") = Some (s2j "A") /\
  (forall s, plain_text s = true ->
     normalizeForPatternMatching nfkc s = Some s /\
     match normalizeForPatternMatching nfkc s with
     | Some t => normalizeForPatternMatching nfkc t = Some t
     | None => False
     end).
Proof.
  intros nfkc Hn.
  split; [run_pipeline Hn|]. split; [run_pipeline Hn|].
  split; [run_pipeline Hn|]. split; [run_pipeline Hn|].
  intros s Hs. rewrite (normalize_plain nfkc Hn s Hs).
  split; [reflexivity | apply (normalize_plain nfkc Hn s Hs)].
Qed.

(** Claim C6 (amended), witness: the theorem applied to the NFKC of ASCII
    text. *)
Lemma normalize_not_idempotent_witness :
  (forall s, ascii_text s = true -> nfkc_ascii s = s) /\
  normalizeForPatternMatching nfkc_ascii (s2j "%25252541") = Some (s2j "%41") /\
  normalizeForPatternMatching nfkc_ascii (s2j "%41") = Some (s2j "A").
Proof.
  split; [intros s _; reflexivity|].
  destruct (normalize_not_idempotent nfkc_ascii (fun s _ => eq_refl))
    as [_ [_ [H3 [H4 _]]]].
  split; [exact H3 | exact H4].
Defined.

End NormalizeFacts.

(** ** Glob matching of policies *)

Module PolicyGlobFacts.
Import Policy PolicyGlob.

Ltac zdestr c :=
  let p := fresh "p" in
  destruct c as [|p|p]; [ | do 8 (try destruct p as [p|p|]) | ].

Local Abbreviation meta c :=
  (existsb (Z.eqb c) [46; 43; 94; 36; 123; 125; 40; 41; 124; 91; 93; 92]).

Lemma parse_body_S f s :
  parse_body (S f) s =
  match s with
  | [] => Some []
  | 92 :: c :: rest => after_atom (parse_body f) (Lit c) rest
  | 46 :: rest => after_atom (parse_body f) AnyChar rest
  | 42 :: _ | 63 :: _ => None
  | c :: rest => after_atom (parse_body f) (Lit c) rest
  end.
Proof. reflexivity. Qed.

Lemma parse_body_lit f c rest :
  meta c = false -> c <> 42 -> c <> 63 ->
  parse_body (S f) (c :: rest) = after_atom (parse_body f) (Lit c) rest.
Proof.
  intros Hm H1 H2. rewrite parse_body_S.
  zdestr c; try reflexivity; try (exfalso; lia); discriminate.
Qed.

Lemma after_atom_other P a x r :
  x <> 42 -> x <> 63 ->
  after_atom P a (x :: r) = match P (x :: r) with Some ps => Some ((a, One) :: ps) | None => None end.
Proof. intros H1 H2. unfold after_atom. zdestr x; try reflexivity; exfalso; lia. Qed.

Lemma after_atom_star P a x r :
  x <> 63 ->
  after_atom P a (42 :: x :: r) = match P (x :: r) with Some ps => Some ((a, Star) :: ps) | None => None end.
Proof. intros H. unfold after_atom. zdestr x; try reflexivity; exfalso; lia. Qed.

Lemma glob_lit c p' s : c <> 42 -> c <> 63 ->
  glob_match (c :: p') s =
  match s with c' :: s' => (c =? c') && glob_match p' s' | [] => false end.
Proof.
  intros H1 H2. destruct s as [|x s]; zdestr c; try reflexivity; exfalso; lia.
Qed.


Local Abbreviation path_body p :=
  (replace_char 63 [46] (replace_char 42 [46; 42] (escape_meta p))).
Local Abbreviation glob_atoms p :=
  (map (fun c => if c =? 42 then (AnyChar, Star) else if c =? 63 then (AnyChar, One)
                 else (Lit c, One)) p).

Local Abbreviation piece c :=
  (if c =? 42 then [46; 42] else if c =? 63 then [46] else if meta c then [92; c] else [c]).

Lemma replace_char_app x b l1 l2 :
  replace_char x b (l1 ++ l2) = replace_char x b l1 ++ replace_char x b l2.
Proof. unfold replace_char. apply flat_map_app. Qed.

Lemma path_body_cons c p : path_body (c :: p) = piece c ++ path_body p.
Proof.
  change (escape_meta (c :: p)) with ((if meta c then [92; c] else [c]) ++ escape_meta p).
  rewrite !replace_char_app. f_equal.
  destruct (Z.eqb_spec c 42); [subst; reflexivity|].
  destruct (Z.eqb_spec c 63); [subst; reflexivity|].
  assert (A : (c =? 42) = false) by (apply Z.eqb_neq; lia).
  assert (B : (c =? 63) = false) by (apply Z.eqb_neq; lia).
  destruct (meta c); simpl; rewrite ?A; simpl; rewrite ?B; reflexivity.
Qed.

Lemma meta_not c : meta c = true -> c <> 42 /\ c <> 63.
Proof.
  cbn [existsb]. intros H.
  repeat (apply orb_prop in H as [H|H]; [apply Z.eqb_eq in H; subst; split; discriminate|]).
  discriminate.
Qed.

Lemma path_body_head p x r : path_body p = x :: r -> x <> 42 /\ x <> 63.
Proof.
  destruct p as [|c p]; [discriminate|]. rewrite path_body_cons.
  destruct (Z.eqb_spec c 42); [intros H; inversion H; lia|].
  destruct (Z.eqb_spec c 63); [intros H; inversion H; lia|].
  destruct (meta c) eqn:M; intros H; inversion H; subst; lia.
Qed.

Lemma path_body_length p : (List.length p <= List.length (path_body p))%nat.
Proof.
  induction p as [|c p IH]; [simpl; lia|]. rewrite path_body_cons, length_app.
  destruct (c =? 42), (c =? 63), (meta c); simpl; lia.
Qed.

Lemma parse_path_body p f :
  (List.length (path_body p) < f)%nat -> parse_body f (path_body p) = Some (glob_atoms p).
Proof.
  revert f. induction p as [|c p IH]; intros f Hf.
  - destruct f; [lia|]. reflexivity.
  - destruct f as [|f]; [lia|].
    rewrite path_body_cons in *. rewrite length_app in Hf.
    assert (Hn : forall r x, path_body p = x :: r -> x <> 42 /\ x <> 63) by
      (intros; eapply path_body_head; eauto).
    assert (IH' : parse_body f (path_body p) = Some (glob_atoms p)).
    { apply IH. 
      destruct (c =? 42), (c =? 63), (meta c); simpl in Hf; lia. }
    cbn [map]. 
    destruct (Z.eqb_spec c 42).
    + cbn [app]. rewrite parse_body_S.
      destruct (path_body p) as [|x r] eqn:E.
      * unfold after_atom. cbn. rewrite IH'. reflexivity.
      * destruct (Hn r x eq_refl). rewrite after_atom_star by assumption. rewrite IH'. reflexivity.
    + destruct (Z.eqb_spec c 63).
      * cbn [app]. rewrite parse_body_S.
        destruct (path_body p) as [|x r] eqn:E.
        -- unfold after_atom. cbn. rewrite IH'. reflexivity.
        -- destruct (Hn r x eq_refl). rewrite after_atom_other by assumption. rewrite IH'. reflexivity.
      * destruct (meta c) eqn:M.
        -- cbn [app]. rewrite parse_body_S.
           destruct (path_body p) as [|x r] eqn:E.
           ++ unfold after_atom. cbn. rewrite IH'. reflexivity.
           ++ destruct (Hn r x eq_refl). rewrite after_atom_other by assumption. rewrite IH'. reflexivity.
        -- cbn [app]. rewrite parse_body_lit by assumption.
           destruct (path_body p) as [|x r] eqn:E.
           ++ unfold after_atom. cbn. rewrite IH'. reflexivity.
           ++ destruct (Hn r x eq_refl). rewrite after_atom_other by assumption. rewrite IH'. reflexivity.
Qed.

Lemma compile_path p :
  compile ([94] ++ path_body p ++ [36]) = Some (glob_atoms p).
Proof.
  unfold compile. cbn [app].
  rewrite rev_app_distr. cbn [rev app]. rewrite rev_involutive.
  apply parse_path_body. rewrite length_rev. lia.
Qed.



Lemma rmatch_glob p s :
  forallb (fun c => negb (is_line_terminator c)) s = true -> rmatch (glob_atoms p) s = glob_match p s.
Proof.
  revert s. induction p as [|c p IH]; intros s Hs.
  - reflexivity.
  - cbn [map]. destruct (Z.eqb_spec c 42).
    + subst. cbn [rmatch glob_match].
      induction s as [|x s IHs].
      * rewrite IH by reflexivity. reflexivity.
      * simpl in Hs. apply andb_prop in Hs as [Hx Hs].
        rewrite IH by (simpl; rewrite Hx; exact Hs). f_equal.
        cbn [atom_ok]. rewrite Hx. simpl. apply IHs. exact Hs.
    + destruct (Z.eqb_spec c 63).
      * subst. destruct s as [|x s]; [reflexivity|].
        simpl in Hs. apply andb_prop in Hs as [Hx Hs].
        cbn [rmatch glob_match atom_ok]. rewrite Hx, IH by exact Hs. reflexivity.
      * rewrite glob_lit by assumption. destruct s as [|x s]; [reflexivity|].
        simpl in Hs. apply andb_prop in Hs as [Hx Hs].
        cbn [rmatch atom_ok]. rewrite IH by exact Hs. reflexivity.
Qed.

Lemma glob_star_any s : glob_match [42] s = true.
Proof. induction s as [|x s IH]; [reflexivity|]. simpl. simpl in IH. exact IH. Qed.

Lemma glob_refl p : glob_match p p = true.
Proof.
  induction p as [|c p IH]; [reflexivity|].
  destruct (Z.eqb_spec c 42).
  - subst. cbn [glob_match]. rewrite orb_true_iff. right.
    destruct p as [|x p]; [reflexivity|].
    rewrite IH. reflexivity.
  - destruct (Z.eqb_spec c 63).
    + subst. exact IH.
    + rewrite glob_lit by assumption. rewrite Z.eqb_refl. exact IH.
Qed.

Lemma jstr_eqb_true a b : jstr_eqb a b = true -> a = b.
Proof.
  revert b. induction a as [|x a IH]; intros [|y b] H; try discriminate; [reflexivity|].
  simpl in H. apply andb_prop in H as [H1 H2]. apply Z.eqb_eq in H1. subst.
  f_equal. apply IH. exact H2.
Qed.

Lemma jstr_eqb_false a b : jstr_eqb a b = false -> a <> b.
Proof. intros H E. subst. rewrite NormalizeFacts.jstr_eqb_refl in H. discriminate. Qed.

Lemma units_bmp s : forallb (fun c => c <? 65536) s = true -> Json.utf16_units s = s.
Proof.
  induction s as [|c s IH]; intros H; [reflexivity|]. cbn [forallb] in H.
  apply andb_prop in H as [Hc H]. apply Z.ltb_lt in Hc. unfold Json.utf16_units in *.
  cbn [flat_map]. destruct (Z.ltb_spec 65535 c); [lia|]. rewrite IH by exact H. reflexivity.
Qed.

(** [matchPath] on any pattern: the regex always compiles. *)
Lemma matchPath_eq path pattern :
  matchPath path pattern =
  Some (jstr_eqb pattern [42] || jstr_eqb pattern path ||
        rmatch (glob_atoms pattern) (Json.utf16_units path)).
Proof.
  unfold matchPath.
  destruct (jstr_eqb pattern [42]); [reflexivity|].
  destruct (jstr_eqb pattern path); [reflexivity|].
  unfold regex_test. rewrite compile_path. reflexivity.
Qed.

Lemma some_path_eq path ps :
  some_path path ps =
  Some (existsb (fun p => jstr_eqb p [42] || jstr_eqb p path ||
                          rmatch (glob_atoms p) (Json.utf16_units path)) ps).
Proof.
  induction ps as [|p ps IH]; [reflexivity|]. simpl. rewrite matchPath_eq.
  destruct (_ || _ || _); [reflexivity|]. exact IH.
Qed.

Lemma glob_shortcuts pattern path :
  jstr_eqb pattern [42] || jstr_eqb pattern path || glob_match pattern path =
  glob_match pattern path.
Proof.
  destruct (jstr_eqb pattern [42]) eqn:E1.
  - apply jstr_eqb_true in E1. subst. rewrite glob_star_any. reflexivity.
  - destruct (jstr_eqb pattern path) eqn:E2; [|reflexivity].
    apply jstr_eqb_true in E2. subst. rewrite glob_refl. reflexivity.
Qed.

Lemma matchPath_glob_lemma path pattern :
  forallb (fun c => c <? 65536) path = true ->
  forallb (fun c => negb (is_line_terminator c)) path = true ->
  matchPath path pattern = Some (glob_match pattern path).
Proof.
  intros Hb Ht. rewrite matchPath_eq, units_bmp by exact Hb.
  rewrite rmatch_glob by exact Ht. rewrite glob_shortcuts. reflexivity.
Qed.

Lemma some_path_glob path ps :
  forallb (fun c => c <? 65536) path = true ->
  forallb (fun c => negb (is_line_terminator c)) path = true ->
  some_path path ps = Some (existsb (fun p => glob_match p path) ps).
Proof.
  intros Hb Ht. induction ps as [|p ps IH]; [reflexivity|]. simpl.
  rewrite matchPath_glob_lemma by assumption.
  destruct (glob_match p path); [reflexivity|]. exact IH.
Qed.

(** The regex of [patternToRegex] is that of [matchPath] when the pattern
    has no [?]. *)
Lemma tool_body_no_qmark p :
  ~ In 63 p ->
  replace_char 42 [46; 42] (escape_meta p) = path_body p.
Proof.
  induction p as [|c p IH]; intros H; [reflexivity|].
  change (escape_meta (c :: p)) with ((if meta c then [92; c] else [c]) ++ escape_meta p).
  rewrite !replace_char_app. f_equal; [|apply IH; intros Hin; apply H; right; exact Hin].
  assert (Hc : c <> 63) by (intros E; apply H; left; auto).
  destruct (Z.eqb_spec c 42); [subst; reflexivity|].
  assert (A : (c =? 42) = false) by (apply Z.eqb_neq; lia).
  assert (B : (c =? 63) = false) by (apply Z.eqb_neq; lia).
  destruct (meta c); simpl; rewrite ?A; simpl; rewrite ?B; reflexivity.
Qed.

Lemma includes_single s x : includes s [x] = true <-> In x s.
Proof.
  induction s as [|c s IH]; [simpl; split; [discriminate|tauto]|].
  simpl. assert (E : starts_with s [] = true) by (destruct s; reflexivity).
  rewrite E, orb_true_iff, IH, andb_true_r, Z.eqb_eq. split; intros [H|H]; auto.
Qed.

Lemma glob_plain p s : ~ In 42 p -> ~ In 63 p -> glob_match p s = jstr_eqb p s.
Proof.
  revert s. induction p as [|c p IH]; intros s H1 H2.
  - destruct s; reflexivity.
  - rewrite glob_lit by (intros E; subst; simpl in *; tauto).
    destruct s as [|x s]; [reflexivity|]. simpl.
    rewrite IH by (simpl in *; tauto). reflexivity.
Qed.

Lemma matchesPolicy_glob_lemma pc ts tool :
  tools pc = Some ts ->
  Forall (fun p => ~ In 63 p) ts ->
  forallb (fun c => c <? 65536) tool = true ->
  forallb (fun c => negb (is_line_terminator c)) tool = true ->
  matchesPolicy pc tool = Some (existsb (fun p => glob_match p tool) ts).
Proof.
  intros Ht Hq Hb Hn. unfold matchesPolicy. rewrite Ht. clear Ht.
  induction Hq as [|p ts Hp Hq IH]; [reflexivity|]. cbn [fold_right existsb].
  rewrite IH.
  destruct (jstr_eqb p [42]) eqn:E1.
  { apply jstr_eqb_true in E1. subst. rewrite glob_star_any. reflexivity. }
  destruct (jstr_eqb p tool) eqn:E2.
  { apply jstr_eqb_true in E2. subst. rewrite glob_refl. reflexivity. }
  destruct (includes p [42]) eqn:E3.
  - unfold regex_test, patternToRegex. rewrite tool_body_no_qmark by exact Hp.
    rewrite compile_path, units_bmp, rmatch_glob by assumption.
    destruct (glob_match p tool); reflexivity.
  - rewrite glob_plain, E2; [reflexivity| |exact Hp].
    intros Hin. apply includes_single in Hin. congruence.
Qed.


Lemma rmatch_cover r s :
  rmatch r s = true -> forall x, In x s -> exists aq, In aq r /\ atom_ok (fst aq) x = true.
Proof.
  revert s. induction r as [|[a q] r IH]; intros s H x Hx.
  - destruct s; [destruct Hx|discriminate].
  - destruct q.
    + destruct s as [|y s]; [discriminate|]. cbn [rmatch] in H.
      apply andb_prop in H as [H1 H2]. destruct Hx as [<-|Hx].
      * exists (a, One). split; [left; reflexivity | exact H1].
      * destruct (IH s H2 x Hx) as [aq [? ?]]. exists aq. split; [right|]; assumption.
    + cbn [rmatch] in H. apply orb_prop in H as [H|H].
      * destruct s as [|y s]; [discriminate|]. apply andb_prop in H as [H1 H2].
        destruct Hx as [<-|Hx].
        -- exists (a, Opt). split; [left; reflexivity | exact H1].
        -- destruct (IH s H2 x Hx) as [aq [? ?]]. exists aq. split; [right|]; assumption.
      * destruct (IH s H x Hx) as [aq [? ?]]. exists aq. split; [right|]; assumption.
    + cbn [rmatch] in H. induction s as [|y s IHs].
      * destruct Hx.
      * apply orb_prop in H as [H|H].
        -- destruct (IH _ H x Hx) as [aq [? ?]]. exists aq. split; [right|]; assumption.
        -- apply andb_prop in H as [H1 H2]. destruct Hx as [<-|Hx].
           ++ exists (a, Star). split; [left; reflexivity | exact H1].
           ++ exact (IHs H2 Hx).
Qed.

Lemma rmatch_terminator pattern path t :
  In t path -> is_line_terminator t = true ->
  forallb (fun c => negb (is_line_terminator c)) pattern = true ->
  rmatch (glob_atoms pattern) (Json.utf16_units path) = false.
Proof.
  intros Hin Ht Hp. destruct (rmatch _ _) eqn:E; [exfalso|reflexivity].
  assert (Hu : In t (Json.utf16_units path)).
  { unfold Json.utf16_units. apply in_flat_map. exists t. split; [exact Hin|].
    unfold is_line_terminator in Ht.
    destruct (Z.ltb_spec 65535 t); [|left; reflexivity].
    repeat (apply orb_prop in Ht as [Ht|Ht]); apply Z.eqb_eq in Ht; lia. }
  destruct (rmatch_cover _ _ E t Hu) as [[a q] [Hq Ha]].
  apply in_map_iff in Hq as [c [Hc Hcin]].
  destruct (c =? 42), (c =? 63); inversion Hc; subst; cbn [fst atom_ok] in Ha;
    try (rewrite Ht in Ha; discriminate).
  apply Z.eqb_eq in Ha. subst. rewrite forallb_forall in Hp.
  specialize (Hp _ Hcin). rewrite Ht in Hp. discriminate.
Qed.

Lemma some_path_total path ps : some_path path ps <> None.
Proof. rewrite some_path_eq. discriminate. Qed.

Lemma evaluatePolicy_total p args : evaluatePolicy p args <> None.
Proof.
  unfold evaluatePolicy.
  destruct (paths p) as [pc|]; [|destruct (p_action p) as [a|]; [destruct (action_of_string a)|]; discriminate].
  destruct (Nat.eqb _ 0); [destruct (p_action p) as [a|]; [destruct (action_of_string a)|]; discriminate|].
  rewrite !some_path_eq.
  destruct (existsb _ _); [discriminate|].
  destruct (existsb _ _); [discriminate|].
  destruct (p_action p) as [a|]; [destruct (action_of_string a)|]; discriminate.
Qed.

(** [evaluatePolicy] with a [paths] entry, on a non-empty path of BMP
    characters without line terminators: deny patterns are tried first,
    then allow patterns, each by glob matching; with no match the entry
    falls back to its static action. *)
Theorem evaluatePolicy_glob p pc args :
  paths p = Some pc ->
  extractPath args <> [] ->
  forallb (fun c => c <? 65536) (extractPath args) = true ->
  forallb (fun c => negb (is_line_terminator c)) (extractPath args) = true ->
  evaluatePolicy p args =
  if existsb (fun d => glob_match d (extractPath args))
       (match paths_deny pc with Some l => l | None => [] end)
  then Some (Some (mk deny dangerous "Path matches deny pattern"))
  else if existsb (fun a => glob_match a (extractPath args))
            (match paths_allow pc with Some l => l | None => [] end)
  then Some (Some (mk allow safe "Path matches allow pattern"))
  else evaluatePolicy {| tools := tools p; p_action := p_action p; paths := None |} args.
Proof.
  intros Hp Hne Hb Ht. unfold evaluatePolicy at 1. rewrite Hp.
  destruct (Nat.eqb_spec (List.length (extractPath args)) 0) as [E|_].
  { destruct (extractPath args); [congruence|discriminate]. }
  rewrite !some_path_glob by assumption.
  destruct (existsb _ _); [reflexivity|]. destruct (existsb _ _); reflexivity.
Qed.

(** A path argument holding a line terminator escapes every deny pattern
    other than [*] and the path itself whose characters are not line
    terminators: the entry evaluates as if it had no deny list. *)
Theorem deny_ignored_on_line_terminator p pc args deny t :
  paths p = Some pc -> paths_deny pc = Some deny ->
  In t (extractPath args) -> is_line_terminator t = true ->
  Forall (fun d => d <> [42] /\ d <> extractPath args /\
                   forallb (fun c => negb (is_line_terminator c)) d = true) deny ->
  evaluatePolicy p args =
  evaluatePolicy {| tools := tools p; p_action := p_action p;
                    paths := Some {| paths_allow := paths_allow pc; paths_deny := None |} |} args.
Proof.
  intros Hp Hd Hin Ht Hall. unfold evaluatePolicy. rewrite Hp, Hd. cbn [paths paths_deny paths_allow tools p_action].
  destruct (Nat.eqb _ 0); [reflexivity|].
  assert (E : some_path (extractPath args) deny = Some false).
  { rewrite some_path_eq. f_equal. clear - Hall Hin Ht.
    induction Hall as [|d ds [H1 [H2 H3]] _ IH]; [reflexivity|]. cbn [existsb]. rewrite IH, orb_false_r.
    destruct (jstr_eqb d [42]) eqn:E1; [apply jstr_eqb_true in E1; congruence|].
    destruct (jstr_eqb d (extractPath args)) eqn:E2; [apply jstr_eqb_true in E2; congruence|].
    simpl. eapply rmatch_terminator; eauto. }
  rewrite E. reflexivity.
Qed.


Lemma matchesPolicy_total pc tool :
  (forall ts, tools pc = Some ts -> Forall (fun t => compile (patternToRegex t) <> None) ts) ->
  matchesPolicy pc tool <> None.
Proof.
  intros H. unfold matchesPolicy. destruct (tools pc) as [ts|]; [|discriminate].
  specialize (H ts eq_refl). induction H as [|p ts Hp _ IH]; [discriminate|].
  cbn [fold_right].
  destruct (jstr_eqb p [42]); [discriminate|]. destruct (jstr_eqb p tool); [discriminate|].
  destruct (includes p [42]); [|exact IH].
  unfold regex_test. destruct (compile (patternToRegex p)); [|contradiction].
  destruct (rmatch _ _); [discriminate|exact IH].
Qed.

Lemma validated_compiles t : validateToolPattern t = None -> compile (patternToRegex t) <> None.
Proof.
  unfold validateToolPattern.
  destruct (Nat.eqb _ 0); [discriminate|]. destruct (256 <? _); [discriminate|].
  destruct (existsb _ _); [discriminate|]. destruct (compile _); discriminate.
Qed.

(** [evaluate] never throws when every tool pattern of the server's
    policies passes [validateToolPattern]. *)
Theorem evaluate_never_throws e serverName tool args :
  (forall sc, lookup_server (engine_config e) serverName = OwnEntry sc ->
   forall pc, In pc (match policies sc with Some l => l | None => [] end) ->
   forall ts, tools pc = Some ts -> Forall (fun t => validateToolPattern t = None) ts) ->
  evaluate e serverName tool args <> None.
Proof.
  intros H. unfold evaluate.
  destruct (lookup_server (engine_config e) serverName) as [sc| |]; [|discriminate|discriminate].
  specialize (H sc eq_refl).
  induction (match policies sc with Some l => l | None => [] end) as [|pc ps IH];
    [discriminate|].
  cbn [eval_policies].
  assert (Hm : matchesPolicy pc tool <> None).
  { apply matchesPolicy_total. intros ts Ht. eapply Forall_impl; [apply validated_compiles|].
    exact (H pc (or_introl eq_refl) ts Ht). }
  destruct (matchesPolicy pc tool) as [[|]|]; [|apply IH; intros q Hq; exact (H q (or_intror Hq))|contradiction].
  pose proof (evaluatePolicy_total pc args) as He.
  destruct (evaluatePolicy pc args) as [[d|]|]; [discriminate| |contradiction].
  apply IH. intros q Hq. exact (H q (or_intror Hq)).
Qed.

(** [matchPath] on a path of BMP characters without line terminators is
    glob matching: [*] any string, [?] one character, the rest literal. *)
Theorem matchPath_glob path pattern :
  forallb (fun c => c <? 65536) path = true ->
  forallb (fun c => negb (is_line_terminator c)) path = true ->
  matchPath path pattern = Some (glob_match pattern path).
Proof. exact (matchPath_glob_lemma path pattern). Qed.


Lemma matchPath_glob_witness :
  matchPath (s2j "src/a.ts") (s2j "src/?.ts") = Some (glob_match (s2j "src/?.ts") (s2j "src/a.ts")).
Proof. apply matchPath_glob; vm_compute; reflexivity. Defined.


Lemma evaluatePolicy_glob_witness :
  let p := {| tools := None; p_action := Some (s2j "prompt");
              paths := Some {| paths_allow := Some [s2j "/tmp/*"];
                               paths_deny := Some [s2j "/etc/*"] |} |} in
  let args := [(s2j "path", Json.JStr (s2j "/etc/passwd"))] in
  evaluatePolicy p args =
  if existsb (fun d => glob_match d (extractPath args)) [s2j "/etc/*"]
  then Some (Some (mk deny dangerous "Path matches deny pattern"))
  else if existsb (fun a => glob_match a (extractPath args)) [s2j "/tmp/*"]
  then Some (Some (mk allow safe "Path matches allow pattern"))
  else evaluatePolicy {| tools := None; p_action := Some (s2j "prompt"); paths := None |} args.
Proof.
  intros p args.
  apply (evaluatePolicy_glob p {| paths_allow := Some [s2j "/tmp/*"]; paths_deny := Some [s2j "/etc/*"] |});
    [reflexivity | vm_compute; discriminate | vm_compute; reflexivity | vm_compute; reflexivity].
Defined.

Lemma deny_ignored_on_line_terminator_witness :
  let pc := {| paths_allow := None; paths_deny := Some [s2j "/etc/*"] |} in
  let p := {| tools := None; p_action := Some (s2j "allow"); paths := Some pc |} in
  let args := [(s2j "path", Json.JStr (s2j "/etc/passwd" ++ [10]))] in
  evaluatePolicy p args =
  evaluatePolicy {| tools := None; p_action := Some (s2j "allow");
                    paths := Some {| paths_allow := None; paths_deny := None |} |} args.
Proof.
  intros pc p args.
  apply (deny_ignored_on_line_terminator p pc args [s2j "/etc/*"] 10);
    [reflexivity | reflexivity | | reflexivity | ].
  - vm_compute. repeat (try (left; reflexivity); right).
  - repeat constructor; vm_compute; discriminate.
Defined.

Lemma evaluate_never_throws_witness :
  let pc := {| tools := Some [s2j "read_*"]; p_action := Some (s2j "allow"); paths := None |} in
  let e := new_engine {| servers := Some [(s2j "fs", {| command := s2j "fs-server";
                                                       policies := Some [pc] |})];
                         defaults_action := None |} in
  evaluate e (s2j "fs") (s2j "read_file") [] <> None.
Proof.
  intros pc e. apply evaluate_never_throws.
  intros sc Hsc. vm_compute in Hsc. injection Hsc as <-.
  intros q [<-|[]] ts Hts. injection Hts as <-.
  repeat constructor.
Defined.

End PolicyGlobFacts.

(** ** Session grant lookup, pruning and revocation *)

Module SessionStoreFacts.
Import Sessions SessionStore.

Lemma findMatch_find now tool_name srv rows :
  findMatch now tool_name srv rows = find (covers tool_name srv) (list_active now rows).
Proof. reflexivity. Qed.

Local Abbreviation newer := (fun a b : Session => createdAt b <= createdAt a).

Lemma insert_perm s l : Permutation (insert_by_created s l) (s :: l).
Proof.
  induction l as [|x l IH]; [reflexivity|]. simpl.
  destruct (createdAt x <=? createdAt s); [reflexivity|].
  rewrite IH. apply perm_swap.
Qed.

Lemma sort_perm l : Permutation (fold_right insert_by_created [] l) l.
Proof.
  induction l as [|x l IH]; [reflexivity|]. simpl. rewrite insert_perm, IH. reflexivity.
Qed.

Lemma insert_sorted s l :
  StronglySorted newer l -> StronglySorted newer (insert_by_created s l).
Proof.
  induction l as [|x l IH]; intros H; simpl.
  - repeat constructor.
  - apply StronglySorted_inv in H as [Hl Hx].
    destruct (Z.leb_spec (createdAt x) (createdAt s)).
    + constructor; [constructor; assumption|].
      constructor; [(cbv beta in *; lia)|].
      eapply Forall_impl; [|exact Hx]. intros; (cbv beta in *; lia).
    + constructor; [apply IH; exact Hl|].
      apply Forall_forall. intros y Hy.
      apply (Permutation_in _ (insert_perm s l)) in Hy as [<-|Hy]; [(cbv beta in *; lia)|].
      rewrite Forall_forall in Hx. apply Hx, Hy.
Qed.

Lemma sort_sorted l : StronglySorted newer (fold_right insert_by_created [] l).
Proof. induction l as [|x l IH]; simpl; [constructor|]. apply insert_sorted, IH. Qed.

Lemma find_newest f l s :
  StronglySorted newer l -> find f l = Some s ->
  In s l /\ f s = true /\ forall s', In s' l -> f s' = true -> createdAt s' <= createdAt s.
Proof.
  induction l as [|x l IH]; intros Hs Hf; [discriminate|].
  apply StronglySorted_inv in Hs as [Hl Hx]. simpl in Hf.
  destruct (f x) eqn:E.
  - injection Hf as <-. split; [left; reflexivity|]. split; [exact E|].
    intros s' [<-|Hin] _; [(cbv beta in *; lia)|]. rewrite Forall_forall in Hx. apply Hx in Hin. cbv beta in Hin. exact Hin.
  - destruct (IH Hl Hf) as [H1 [H2 H3]]. split; [right; exact H1|]. split; [exact H2|].
    intros s' [<-|Hin] Hs'; [congruence|]. apply H3; assumption.
Qed.

Lemma in_list_active now rows s : In s (list_active now rows) <-> In s rows /\ is_active now s = true.
Proof.
  unfold list_active. split; intros H.
  - apply (Permutation_in _ (sort_perm _)) in H. apply filter_In in H. exact H.
  - apply (Permutation_in _ (Permutation_sym (sort_perm _))). apply filter_In. exact H.
Qed.

Lemma findMatch_spec now tool_name srv rows :
  match findMatch now tool_name srv rows with
  | Some s =>
      In s rows /\ is_active now s = true /\ covers tool_name srv s = true /\
      forall s', In s' rows -> is_active now s' = true -> covers tool_name srv s' = true ->
                 createdAt s' <= createdAt s
  | None =>
      forall s', In s' rows -> is_active now s' = true -> covers tool_name srv s' = false
  end.
Proof.
  rewrite findMatch_find. destruct (find _ _) as [s|] eqn:E.
  - destruct (find_newest _ _ _ (sort_sorted _) E) as [H1 [H2 H3]].
    apply in_list_active in H1 as [H1 H1'].
    split; [exact H1|]. split; [exact H1'|]. split; [exact H2|].
    intros s' Hin Ha Hc. apply H3; [apply in_list_active; split|]; assumption.
  - intros s' Hin Ha. destruct (covers tool_name srv s') eqn:Ec; [|reflexivity].
    exfalso. assert (Hin' : In s' (list_active now rows)) by (apply in_list_active; auto).
    pose proof (find_none _ _ E s' Hin') as Hn. congruence.
Qed.

Lemma filter_active_prune now t rows :
  now <= t ->
  filter (is_active t) (filter (fun s => now <? expiresAt s) rows) = filter (is_active t) rows.
Proof.
  intros Ht. induction rows as [|s rows IH]; [reflexivity|]. simpl.
  destruct (Z.ltb_spec now (expiresAt s)); simpl; rewrite IH; [reflexivity|].
  unfold is_active. destruct (Z.ltb_spec t (expiresAt s)); [lia|reflexivity].
Qed.

(** [prune] deletes the expired rows and returns how many it deleted; a
    lookup at the same clock or later finds the same grant as before. *)
Theorem prune_keeps_findMatch now rows :
  let '(rows', removed) := prune now rows in
  Z.of_nat (List.length rows) = Z.of_nat (List.length rows') + removed /\
  forall t tool_name srv, now <= t ->
    findMatch t tool_name srv rows' = findMatch t tool_name srv rows.
Proof.
  unfold prune. split.
  - induction rows as [|s rows IH]; [reflexivity|]. simpl.
    destruct (Z.ltb_spec now (expiresAt s)), (Z.leb_spec (expiresAt s) now);
      cbn [List.length]; rewrite ?Nat2Z.inj_succ; lia.
  - intros t tool_name srv Ht. unfold findMatch. rewrite filter_active_prune by exact Ht.
    reflexivity.
Qed.


Lemma findMatch_active t tool_name srv rows s :
  findMatch t tool_name srv rows = Some s -> In s rows /\ is_active t s = true.
Proof.
  intros H. pose proof (findMatch_spec t tool_name srv rows) as Hs. rewrite H in Hs.
  destruct Hs as [H1 [H2 _]]. split; assumption.
Qed.

Lemma existsb_count {A} (f : A -> bool) l :
  (0 <? Z.of_nat (List.length (filter f l))) = existsb f l.
Proof.
  induction l as [|x l IH]; [reflexivity|]. simpl.
  destruct (f x); simpl; [|exact IH]. apply Z.ltb_lt. lia.
Qed.

Lemma revoke_rows now i by_ reason rows :
  fst (revoke now i by_ reason rows) =
  map (fun r => if jstr_eqb (id r) i && is_unrevoked r
                then revoke_row now by_ (reason_col reason) r else r) rows.
Proof. reflexivity. Qed.

Lemma revoke_ok now i by_ reason rows :
  snd (revoke now i by_ reason rows) = existsb (fun r => jstr_eqb (id r) i && is_unrevoked r) rows.
Proof. unfold revoke, update_where. simpl. apply existsb_count. Qed.

Lemma jstr_eqb_eq a b : jstr_eqb a b = true <-> a = b.
Proof.
  split; [|intros <-; apply NormalizeFacts.jstr_eqb_refl].
  revert b. induction a as [|x a IH]; intros [|y b] H; try discriminate; [reflexivity|].
  simpl in H. apply andb_prop in H as [H1 H2]. apply Z.eqb_eq in H1. subst.
  f_equal. apply IH. exact H2.
Qed.

(** [revoke(id)] reports whether an unrevoked row with that id existed; once
    it has run, [findMatch] never returns a grant with that id. *)
Theorem revoke_then_never_matched now id_ by_ reason rows :
  let '(rows', ok) := revoke now id_ by_ reason rows in
  ok = existsb (fun s => jstr_eqb (id s) id_ && is_unrevoked s) rows /\
  forall t tool_name srv s, findMatch t tool_name srv rows' = Some s -> id s <> id_.
Proof.
  pose proof (revoke_rows now id_ by_ reason rows) as Hr.
  pose proof (revoke_ok now id_ by_ reason rows) as Ho.
  destruct (revoke now id_ by_ reason rows) as [rows' ok]. simpl in Hr, Ho.
  split; [exact Ho|]. intros t tool_name srv s Hf Hid.
  apply findMatch_active in Hf as [Hin Ha]. subst rows'.
  apply in_map_iff in Hin as [r [Hr Hin]].
  destruct (jstr_eqb (id r) id_ && is_unrevoked r) eqn:E.
  - subst s. unfold is_active, is_unrevoked in Ha. simpl in Ha.
    rewrite andb_false_r in Ha. discriminate.
  - subst s. rewrite <- Hid in E. rewrite NormalizeFacts.jstr_eqb_refl in E. simpl in E.
    unfold is_active in Ha. rewrite E, andb_false_r in Ha. discriminate.
Qed.

Section RevokeAll.
Variables (now : Z) (by_ : jstr) (reason : option jstr).

(** The rows after revoking the ids [ids] in turn. *)
Local Abbreviation revoked_by_ids ids :=
  (fun r => if existsb (jstr_eqb (id r)) ids && is_unrevoked r
            then revoke_row now by_ (reason_col reason) r else r).

Lemma revoked_by_ids_cons i ids r :
  revoked_by_ids ids (if jstr_eqb (id r) i && is_unrevoked r
                      then revoke_row now by_ (reason_col reason) r else r) =
  revoked_by_ids (i :: ids) r.
Proof.
  simpl.
  destruct (jstr_eqb (id r) i) eqn:E1, (is_unrevoked r) eqn:E2; simpl;
    rewrite ?E2, ?andb_false_r, ?andb_true_r; try reflexivity.
Qed.

Lemma fold_revoke L R c :
  NoDup (map id L) -> (forall x, In x L -> In x R /\ is_unrevoked x = true) ->
  fold_left (fun acc s =>
               let '(rows, count) := acc in
               let '(rows', ok) := revoke now (id s) by_ reason rows in
               (rows', if ok then count + 1 else count)) L (R, c) =
  (map (revoked_by_ids (map id L)) R, c + Z.of_nat (List.length L)).
Proof.
  revert R c. induction L as [|y L IH]; intros R c Hd Hin.
  - simpl. f_equal; [|lia]. rewrite <- map_id at 1. apply map_ext. intros r.
    simpl. reflexivity.
  - cbn [fold_left].
    pose proof (revoke_rows now (id y) by_ reason R) as Hr.
    pose proof (revoke_ok now (id y) by_ reason R) as Ho.
    destruct (revoke now (id y) by_ reason R) as [R' ok]. simpl in Hr, Ho.
    assert (Hok : ok = true).
    { rewrite Ho. apply existsb_exists. exists y.
      destruct (Hin y (or_introl eq_refl)) as [H1 H2]. split; [exact H1|].
      rewrite NormalizeFacts.jstr_eqb_refl, H2. reflexivity. }
    rewrite Hok. simpl in Hd. inversion Hd as [|? ? Hy Hd']. subst.
    rewrite IH; [|exact Hd'|].
    + f_equal; [|cbn [List.length]; lia]. rewrite map_map. apply map_ext. intros r.
      apply revoked_by_ids_cons.
    + intros x Hx. destruct (Hin x (or_intror Hx)) as [H1 H2]. split; [|exact H2].
      apply in_map_iff. exists x. split; [|exact H1].
      destruct (jstr_eqb (id x) (id y)) eqn:E; [|reflexivity].
      apply jstr_eqb_eq in E. exfalso. apply Hy. rewrite <- E. apply in_map, Hx.
Qed.

End RevokeAll.

Lemma NoDup_map_filter {A B} (g : A -> B) f l : NoDup (map g l) -> NoDup (map g (filter f l)).
Proof.
  induction l as [|x l IH]; intros H; simpl; [constructor|]. inversion H as [|? ? Hx Hl]; subst.
  destruct (f x); [|apply IH, Hl]. simpl. constructor; [|apply IH, Hl].
  intros Hin. apply Hx. apply in_map_iff in Hin as [y [<- Hy]]. apply filter_In in Hy.
  apply in_map, Hy.
Qed.


Lemma starts_with_nil s : starts_with s [] = true.
Proof. destruct s; reflexivity. Qed.

Lemma match_star_other {A} x l (a : jstr -> A) (b : A) :
  x <> 42 -> match x :: l with 42 :: r => a r | _ => b end = b.
Proof. intros H. NormalizeFacts.split_literal x; try reflexivity. exfalso; apply H; reflexivity. Qed.

(** [findMatch] returns the newest active grant that covers the call, and
    [null] only when no active grant covers it. *)
Theorem findMatch_newest_active now tool_name srv rows :
  match findMatch now tool_name srv rows with
  | Some s =>
      In s rows /\ is_active now s = true /\ covers tool_name srv s = true /\
      forall s', In s' rows -> is_active now s' = true -> covers tool_name srv s' = true ->
                 createdAt s' <= createdAt s
  | None =>
      forall s', In s' rows -> is_active now s' = true -> covers tool_name srv s' = false
  end.
Proof. exact (findMatch_spec now tool_name srv rows). Qed.



End SessionStoreFacts.

(** ** Sending and receiving framed messages *)

Module TransportSendFacts.
Import Transport TransportSend.

Lemma digits_value_app acc a b :
  Json.digits_value acc (a ++ b) = Json.digits_value (Json.digits_value acc a) b.
Proof. revert acc; induction a as [|x a IH]; intros acc; [reflexivity|]. apply IH. Qed.

Lemma nat_digits_spec f n :
  0 <= n < 10 ^ Z.of_nat (S f) ->
  Json.nat_digits (S f) n <> [] /\
  Forall (fun c => Json.is_digit c = true) (Json.nat_digits (S f) n) /\
  Json.digits_value 0 (Json.nat_digits (S f) n) = n.
Proof.
  revert n; induction f as [|f IH]; intros n Hn.
  - change (10 ^ Z.of_nat 1) with 10 in Hn. cbn [Json.nat_digits].
    destruct (Z.ltb_spec n 10); [|lia].
    split; [discriminate|]. split.
    + constructor; [|constructor]. unfold Json.is_digit. apply andb_true_iff; split; apply Z.leb_le; lia.
    + cbn [Json.digits_value]. lia.
  - change (Json.nat_digits (S (S f)) n) with
      (if n <? 10 then [48 + n] else Json.nat_digits (S f) (n / 10) ++ [48 + n mod 10]).
    destruct (Z.ltb_spec n 10).
    + split; [discriminate|]. split.
      * constructor; [|constructor]. unfold Json.is_digit. apply andb_true_iff; split; apply Z.leb_le; lia.
      * cbn [Json.digits_value]. lia.
    + assert (Hq : 0 <= n / 10 < 10 ^ Z.of_nat (S f)).
      { split; [apply Z.div_pos; lia|].
        apply Z.div_lt_upper_bound; [lia|].
        rewrite Nat2Z.inj_succ, Z.pow_succ_r in Hn by lia. lia. }
      destruct (IH _ Hq) as (Hne & Hd & Hv).
      split; [intros E; apply app_eq_nil in E; destruct E; discriminate|].
      split.
      * apply Forall_app; split; [exact Hd|]. constructor; [|constructor].
        unfold Json.is_digit. pose proof (Z.mod_pos_bound n 10).
        apply andb_true_iff; split; apply Z.leb_le; lia.
      * rewrite digits_value_app, Hv. cbn [Json.digits_value].
        pose proof (Z.div_mod n 10). lia.
Qed.

Lemma take_digits_all ds :
  Forall (fun c => Json.is_digit c = true) ds -> JsonParse.take_digits ds = (ds, []).
Proof.
  induction 1 as [|c ds Hc _ IH]; [reflexivity|]. simpl. rewrite Hc, IH. reflexivity.
Qed.

Lemma ci_prefix_self p r : ci_prefix (p ++ r) p = Some r.
Proof. induction p as [|x p IH]; [destruct r; reflexivity|]. simpl. rewrite Z.eqb_refl. exact IH. Qed.

Lemma match_content_length_unfold h :
  match_content_length h =
  match
    match ci_prefix h (s2j "Content-Length: ") with
    | Some rest => match JsonParse.take_digits rest with
                   | ([], _) => None
                   | (ds, _) => Some ds
                   end
    | None => None
    end
  with
  | Some ds => Some ds
  | None => match h with [] => None | _ :: h' => match_content_length h' end
  end.
Proof. destruct h; reflexivity. Qed.

Lemma match_content_length_header ds :
  ds <> [] -> Forall (fun c => Json.is_digit c = true) ds ->
  match_content_length (s2j "Content-Length: " ++ ds) = Some ds.
Proof.
  intros Hne Hd. rewrite match_content_length_unfold, ci_prefix_self, take_digits_all by exact Hd.
  destruct ds; [congruence|reflexivity].
Qed.

Lemma starts_with_app p r : starts_with (p ++ r) p = true.
Proof. induction p as [|x p IH]; [destruct r; reflexivity|]. simpl. rewrite Z.eqb_refl. exact IH. Qed.

Lemma indexOf_cons c s sub :
  indexOf (c :: s) sub =
  if starts_with (c :: s) sub then Some O
  else match indexOf s sub with Some n => Some (S n) | None => None end.
Proof. reflexivity. Qed.

Lemma indexOf_crlfcrlf p r :
  Forall (fun c => c <> 13) p -> indexOf (p ++ crlfcrlf ++ r) crlfcrlf = Some (List.length p).
Proof.
  induction 1 as [|c p Hc _ IH].
  - simpl app. destruct r; reflexivity.
  - change ((c :: p) ++ crlfcrlf ++ r) with (c :: (p ++ crlfcrlf ++ r)).
    rewrite indexOf_cons.
    replace (starts_with (c :: p ++ crlfcrlf ++ r) crlfcrlf) with false.
    + rewrite IH. reflexivity.
    + unfold crlfcrlf at 2. cbn [starts_with].
      replace (13 =? c) with false by (symmetry; apply Z.eqb_neq; lia). reflexivity.
Qed.

Lemma s2j_header_no_cr : Forall (fun c => c <> 13) (s2j "Content-Length: ").
Proof. repeat constructor; discriminate. Qed.

Lemma digits_no_cr ds : Forall (fun c => Json.is_digit c = true) ds -> Forall (fun c => c <> 13) ds.
Proof.
  apply Forall_impl. intros c H E. subst. discriminate.
Qed.

Local Abbreviation event_of t :=
  (match JsonParse.parse t with Some v => Message v | None => Error InvalidJson end).

Local Abbreviation header_of n :=
  (s2j "Content-Length: " ++ Json.num_to_string n ++ crlfcrlf).

(** A header with a value within the message limit moves the pass on to
    waiting for that many characters. *)
Lemma step_header c n rest :
  0 <= n <= maxMessageSize c -> maxMessageSize c < 2 ^ 53 ->
  step c {| buffer := header_of n ++ rest; contentLength := None |} =
  step c {| buffer := rest; contentLength := Some n |}.
Proof.
  intros Hm Hb.
  assert (Hn : 0 <= n < 10 ^ Z.of_nat 64).
  { split; [lia|]. eapply Z.lt_le_trans; [|apply (Z.pow_le_mono_l 2 10); lia].
    change (Z.of_nat 64) with 64.
    eapply Z.lt_le_trans; [|apply Z.pow_le_mono_r with (b := 53); lia]. lia. }
  assert (Hs : Json.num_to_string n = Json.nat_digits 64 n).
  { unfold Json.num_to_string. destruct (Z.ltb_spec n 0); [lia|reflexivity]. }
  destruct (nat_digits_spec 63 n Hn) as (Hne & Hd & Hv).
  rewrite Hs. set (ds := Json.nat_digits 64 n) in *.
  set (p := s2j "Content-Length: " ++ ds).
  assert (Hbuf : (s2j "Content-Length: " ++ ds ++ crlfcrlf) ++ rest = p ++ crlfcrlf ++ rest).
  { unfold p. rewrite <- !app_assoc. reflexivity. }
  rewrite Hbuf.
  assert (Hi : indexOf (p ++ crlfcrlf ++ rest) crlfcrlf = Some (List.length p)).
  { apply indexOf_crlfcrlf. unfold p. apply Forall_app. split; [apply s2j_header_no_cr|].
    apply digits_no_cr, Hd. }
  unfold step at 1. cbn [contentLength buffer]. rewrite Hi.
  rewrite firstn_app, Nat.sub_diag, firstn_O, app_nil_r, firstn_all.
  unfold p at 1. rewrite match_content_length_header by assumption.
  rewrite Hv.
  replace (skipn (List.length p + 4) (p ++ crlfcrlf ++ rest)) with rest.
  2:{ rewrite skipn_app, skipn_all2 by lia. rewrite app_nil_l.
      replace (List.length p + 4 - List.length p)%nat with 4%nat by lia. reflexivity. }
  unfold parse_is_finite.
  replace (n <? 2 ^ 1024 - 2 ^ 970) with true
    by (symmetry; apply Z.ltb_lt; eapply Z.le_lt_trans; [apply Hm|];
        eapply Z.lt_le_trans; [exact Hb|]; vm_compute; discriminate).
  replace (maxMessageSize c <? n) with false by (symmetry; apply Z.ltb_ge; lia).
  reflexivity.
Qed.

(** One frame whose header gives the length of its content is consumed
    by a single pass. *)
Lemma step_frame c t r :
  Z.of_nat (List.length t) <= maxMessageSize c -> maxMessageSize c < 2 ^ 53 ->
  step c {| buffer := header_of (Z.of_nat (List.length t)) ++ t ++ r;
            contentLength := None |} =
  (inl {| buffer := r; contentLength := None |}, [event_of t]).
Proof.
  intros Hm Hb. rewrite step_header by lia.
  unfold step. cbn [contentLength buffer]. rewrite length_app.
  replace (Z.of_nat (List.length t + List.length r) <? Z.of_nat (List.length t)) with false
    by (symmetry; apply Z.ltb_ge; lia).
  rewrite Nat2Z.id, firstn_app, Nat.sub_diag, firstn_O, app_nil_r, firstn_all.
  rewrite skipn_app, Nat.sub_diag, skipn_O, skipn_all. rewrite app_nil_l.
  destruct (JsonParse.parse t); reflexivity.
Qed.

Lemma step_empty c :
  0 <= maxHeaderSize c -> step c initial = (inr initial, []).
Proof.
  intros H. unfold step, initial. cbn [contentLength buffer indexOf starts_with].
  replace (maxHeaderSize c <? utf16_len []) with false
    by (symmetry; apply Z.ltb_ge; unfold utf16_len; simpl; lia).
  reflexivity.
Qed.

Lemma process_frames c ts fuel :
  0 <= maxHeaderSize c -> maxMessageSize c < 2 ^ 53 ->
  Forall (fun t => Z.of_nat (List.length t) <= maxMessageSize c) ts ->
  (List.length ts < fuel)%nat ->
  process fuel c {| buffer := List.concat (map (fun t => header_of (Z.of_nat (List.length t)) ++ t) ts);
                    contentLength := None |} = (initial, map (fun t => event_of t) ts).
Proof.
  intros Hh Hb Hts. revert fuel. induction Hts as [|t ts Ht _ IH]; intros fuel Hf.
  - destruct fuel as [|f]; [simpl in Hf; lia|]. simpl process.
    change {| buffer := List.concat (map _ []); contentLength := None |} with initial.
    rewrite step_empty by exact Hh. reflexivity.
  - destruct fuel as [|f]; [simpl in Hf; lia|]. cbn [process map concat].
    rewrite concat_cons, <- (app_assoc (header_of (Z.of_nat (List.length t)))).
    rewrite step_frame by assumption.
    rewrite IH by (simpl in Hf; lia). reflexivity.
Qed.

Lemma forallb_ascii s :
  forallb (fun x => (0 <=? x) && (x <? 128)) s = true -> Forall (fun c => 0 <= c < 128) s.
Proof.
  intros H. apply Forall_forall. intros x Hx. rewrite forallb_forall in H.
  specialize (H x Hx). apply andb_true_iff in H. destruct H as [H1 H2].
  apply Z.leb_le in H1. apply Z.ltb_lt in H2. lia.
Qed.

Lemma frame_length t : (1 <= List.length (header_of (Z.of_nat (List.length t)) ++ t))%nat.
Proof. rewrite length_app. simpl. lia. Qed.

Lemma length_concat_ge (ts : list jstr) (f : jstr -> jstr) :
  (forall t, 1 <= List.length (f t))%nat ->
  (List.length ts <= List.length (List.concat (map f ts)))%nat.
Proof.
  intros H. induction ts as [|t ts IH]; [simpl; lia|].
  cbn [map List.concat List.length]. rewrite length_app. specialize (H t). lia.
Qed.

Lemma utf8_char_length x : (1 <= List.length (utf8_char x))%nat.
Proof.
  unfold utf8_char.
  destruct (x <? 128), (x <? 2048), ((55296 <=? x) && (x <=? 57343)), (x <? 65536);
    simpl; lia.
Qed.

Lemma utf8_char_length_2 x : 128 <= x -> (2 <= List.length (utf8_char x))%nat.
Proof.
  intros H. unfold utf8_char. destruct (Z.ltb_spec x 128); [lia|].
  destruct (x <? 2048), ((55296 <=? x) && (x <=? 57343)), (x <? 65536); simpl; lia.
Qed.

Lemma utf8_length_ge s : (List.length s <= List.length (utf8_encode s))%nat.
Proof.
  induction s as [|x s IH]; [simpl; lia|].
  unfold utf8_encode in *. cbn [flat_map List.length]. rewrite length_app.
  pose proof (utf8_char_length x). lia.
Qed.

Lemma utf8_length_gt s :
  existsb (fun x => 128 <=? x) s = true -> (List.length s < List.length (utf8_encode s))%nat.
Proof.
  induction s as [|x s IH]; [discriminate|]. intros H.
  unfold utf8_encode in *. cbn [flat_map List.length]. rewrite length_app.
  cbn [existsb] in H. apply orb_true_iff in H. destruct H as [H|H].
  - apply Z.leb_le in H. pose proof (utf8_char_length_2 x H).
    pose proof (utf8_length_ge s). unfold utf8_encode in *. lia.
  - specialize (IH H). pose proof (utf8_char_length x). lia.
Qed.

Lemma send_eq m :
  send m = header_of (Z.of_nat (List.length (utf8_encode (Json.stringify m)))) ++ Json.stringify m.
Proof. unfold send. rewrite <- app_assoc. reflexivity. Qed.

Lemma send_ascii m :
  forallb (fun x => (0 <=? x) && (x <? 128)) (Json.stringify m) = true ->
  send m = header_of (Z.of_nat (List.length (Json.stringify m))) ++ Json.stringify m.
Proof.
  intros H. rewrite send_eq, (WebhookFacts.ascii_utf8 _ (forallb_ascii _ H)). reflexivity.
Qed.

(** Frames written by [send] with ASCII contents within the message limit,
    arriving together in one chunk within the buffer limit, are delivered
    in order, one event per frame, and leave the transport in its initial
    state. *)
Theorem send_frames_delivered c ms :
  0 <= maxHeaderSize c -> maxMessageSize c < 2 ^ 53 ->
  Forall (fun m => forallb (fun x => (0 <=? x) && (x <? 128)) (Json.stringify m) = true /\
                   Z.of_nat (List.length (Json.stringify m)) <= maxMessageSize c) ms ->
  Z.of_nat (List.length (utf8_encode (List.concat (map send ms)))) <= maxBufferSize c ->
  on_data c (List.concat (map send ms)) initial =
  (initial, map (fun m => match JsonParse.parse (Json.stringify m) with
                          | Some v => Message v
                          | None => Error InvalidJson
                          end) ms).
Proof.
  intros Hh Hb Hms Hsz.
  assert (E : map send ms =
              map (fun t => header_of (Z.of_nat (List.length t)) ++ t) (map Json.stringify ms)).
  { clear Hsz. induction Hms as [|m ms [Ha _] _ IH]; [reflexivity|].
    cbn [map]. rewrite IH, send_ascii by exact Ha. reflexivity. }
  unfold on_data. cbn [buffer initial].
  replace (maxBufferSize c <? utf16_len [] + Z.of_nat (List.length (utf8_encode (List.concat (map send ms)))))
    with false by (symmetry; apply Z.ltb_ge; unfold utf16_len; cbn [fold_right]; lia).
  unfold processBuffer. cbn [buffer contentLength app]. rewrite E.
  rewrite process_frames; try assumption.
  - rewrite map_map. reflexivity.
  - rewrite Forall_map. eapply Forall_impl; [|exact Hms]. intros m [_ H]. exact H.
  - pose proof (length_concat_ge (map Json.stringify ms)
                  (fun t => header_of (Z.of_nat (List.length t)) ++ t) frame_length) as H.
    match goal with |- (?a < 2 * ?b + 2)%nat => assert (Hab : (a <= b)%nat) by exact H; lia end.
Qed.

(** A frame written by [send] whose content holds a character outside
    ASCII is announced with its length in UTF-8 bytes, which exceeds its
    length in characters. Arriving alone, it is never delivered: the
    transport emits nothing and waits for more characters. *)
Theorem send_non_ascii_waits c m :
  forallb (fun x => (0 <=? x) && (x <? 55296) || (57344 <=? x) && (x <? 65536))
    (Json.stringify m) = true ->
  existsb (fun x => 128 <=? x) (Json.stringify m) = true ->
  Z.of_nat (List.length (utf8_encode (Json.stringify m))) <= maxMessageSize c ->
  maxMessageSize c < 2 ^ 53 ->
  Z.of_nat (List.length (utf8_encode (send m))) <= maxBufferSize c ->
  on_data c (send m) initial =
  ({| buffer := Json.stringify m;
      contentLength := Some (Z.of_nat (List.length (utf8_encode (Json.stringify m)))) |}, []).
Proof.
  intros _ Hna Hm Hb Hsz.
  unfold on_data. cbn [buffer initial].
  replace (maxBufferSize c <? utf16_len [] + Z.of_nat (List.length (utf8_encode (send m))))
    with false by (symmetry; apply Z.ltb_ge; unfold utf16_len; cbn [fold_right]; lia).
  unfold processBuffer. cbn [buffer contentLength app].
  remember (2 * List.length (send m) + 2)%nat as fuel.
  destruct fuel as [|f]; [lia|]. cbn [process].
  rewrite send_eq, step_header by lia.
  unfold step. cbn [contentLength buffer].
  replace (Z.of_nat (List.length (Json.stringify m)) <?
           Z.of_nat (List.length (utf8_encode (Json.stringify m)))) with true
    by (symmetry; apply Z.ltb_lt; pose proof (utf8_length_gt _ Hna); lia).
  reflexivity.
Qed.

Local Abbreviation state_of r := (match r with inl s => s | inr s => s end).

Lemma step_suffix c st r evs :
  step c st = (r, evs) -> exists k, buffer (state_of r) = skipn k (buffer st).
Proof.
  destruct st as [buf cl]. unfold step. cbv zeta. cbn [buffer contentLength].
  repeat match goal with
         | |- context [match ?x with _ => _ end] => destruct x eqn:?
         | |- context [if ?x then _ else _] => destruct x eqn:?
         end;
  intros H; inversion H; subst; cbn [buffer];
  first [ exists O; reflexivity
        | exists (List.length buf); symmetry; apply skipn_all
        | eexists; reflexivity
        | eexists; rewrite skipn_skipn; reflexivity
        | eexists (S _); reflexivity ].
Qed.

Lemma process_suffix c fuel st :
  exists k, buffer (fst (process fuel c st)) = skipn k (buffer st).
Proof.
  revert st. induction fuel as [|f IH]; intros st; [exists O; reflexivity|].
  cbn [process]. destruct (step c st) as [r evs] eqn:E.
  destruct (step_suffix _ _ _ _ E) as [k Hk].
  destruct r as [st'|st']; cbn [fst] in *.
  - destruct (process f c st') as [st'' evs'] eqn:E2. cbn [fst].
    destruct (IH st') as [k' Hk']. rewrite E2 in Hk'. cbn [fst] in Hk'.
    exists (k + k')%nat. rewrite Hk', Hk, skipn_skipn. f_equal. lia.
  - exists k. exact Hk.
Qed.

Lemma utf16_len_skipn k s : utf16_len (skipn k s) <= utf16_len s.
Proof.
  revert s; induction k as [|k IH]; intros s; [reflexivity|].
  destruct s as [|x s]; [reflexivity|]. cbn [skipn].
  specialize (IH s). unfold utf16_len in *. cbn [fold_right].
  destruct (65535 <? x); lia.
Qed.

Lemma utf16_len_le_bytes s : utf16_len s <= Z.of_nat (List.length (utf8_encode s)).
Proof.
  induction s as [|x s IH]; [unfold utf16_len; simpl; lia|].
  unfold utf16_len, utf8_encode in *. cbn [fold_right flat_map].
  rewrite length_app, Nat2Z.inj_add.
  assert (Hx : (if 65535 <? x then 2 else 1) <= Z.of_nat (List.length (utf8_char x))).
  { unfold utf8_char.
    destruct (Z.ltb_spec 65535 x), (Z.ltb_spec x 128); try (simpl; lia);
      destruct (x <? 2048), ((55296 <=? x) && (x <=? 57343)), (Z.ltb_spec x 65536);
      simpl; lia. }
  lia.
Qed.

Lemma on_data_bound c ch st :
  utf16_len (buffer st) <= maxBufferSize c ->
  utf16_len (buffer (fst (on_data c ch st))) <= maxBufferSize c.
Proof.
  intros H. unfold on_data.
  destruct (Z.ltb_spec (maxBufferSize c)
              (utf16_len (buffer st) + Z.of_nat (List.length (utf8_encode ch)))) as [Hlt|Hge].
  - cbn [fst buffer]. pose proof (WebhookFacts.utf16_len_nonneg (buffer st)). unfold utf16_len at 1. simpl. lia.
  - unfold processBuffer.
    destruct (process_suffix c (2 * List.length (buffer {| buffer := buffer st ++ ch;
                contentLength := contentLength st |}) + 2)
                {| buffer := buffer st ++ ch; contentLength := contentLength st |}) as [k Hk].
    rewrite Hk. cbn [buffer]. eapply Z.le_trans; [apply utf16_len_skipn|].
    rewrite WebhookFacts.utf16_len_app. pose proof (utf16_len_le_bytes ch). lia.
Qed.



Lemma send_frames_delivered_witness :
  let ms := [Json.JNum 42; Json.JArr [Json.JBool true; Json.JNull]] in
  (0 <= maxHeaderSize default_config /\ maxMessageSize default_config < 2 ^ 53 /\
   Forall (fun m => forallb (fun x => (0 <=? x) && (x <? 128)) (Json.stringify m) = true /\
                    Z.of_nat (List.length (Json.stringify m)) <= maxMessageSize default_config) ms /\
   Z.of_nat (List.length (utf8_encode (List.concat (map send ms)))) <= maxBufferSize default_config) /\
  on_data default_config (List.concat (map send ms)) initial =
  (initial, map (fun m => match JsonParse.parse (Json.stringify m) with
                          | Some v => Message v
                          | None => Error InvalidJson
                          end) ms).
Proof.
  cbv zeta.
  assert (H1 : 0 <= maxHeaderSize default_config) by (vm_compute; discriminate).
  assert (H2 : maxMessageSize default_config < 2 ^ 53) by (vm_compute; reflexivity).
  assert (H3 : Forall (fun m => forallb (fun x => (0 <=? x) && (x <? 128)) (Json.stringify m) = true /\
                    Z.of_nat (List.length (Json.stringify m)) <= maxMessageSize default_config)
                 [Json.JNum 42; Json.JArr [Json.JBool true; Json.JNull]])
    by (repeat constructor; vm_compute; first [reflexivity | discriminate]).
  assert (H4 : Z.of_nat (List.length (utf8_encode (List.concat (map send
                 [Json.JNum 42; Json.JArr [Json.JBool true; Json.JNull]])))) <=
               maxBufferSize default_config) by (vm_compute; discriminate).
  split; [tauto|]. apply send_frames_delivered; assumption.
Defined.

Lemma send_non_ascii_waits_witness :
  let m := Json.JStr [233] in
  (forallb (fun x => (0 <=? x) && (x <? 55296) || (57344 <=? x) && (x <? 65536))
     (Json.stringify m) = true /\
   existsb (fun x => 128 <=? x) (Json.stringify m) = true /\
   Z.of_nat (List.length (utf8_encode (Json.stringify m))) <= maxMessageSize default_config /\
   maxMessageSize default_config < 2 ^ 53 /\
   Z.of_nat (List.length (utf8_encode (send m))) <= maxBufferSize default_config) /\
  on_data default_config (send m) initial =
  ({| buffer := Json.stringify m;
      contentLength := Some (Z.of_nat (List.length (utf8_encode (Json.stringify m)))) |}, []).
Proof.
  cbv zeta.
  assert (H1 : forallb (fun x => (0 <=? x) && (x <? 55296) || (57344 <=? x) && (x <? 65536))
                 (Json.stringify (Json.JStr [233])) = true) by (vm_compute; reflexivity).
  assert (H2 : existsb (fun x => 128 <=? x) (Json.stringify (Json.JStr [233])) = true)
    by (vm_compute; reflexivity).
  assert (H3 : Z.of_nat (List.length (utf8_encode (Json.stringify (Json.JStr [233])))) <=
               maxMessageSize default_config) by (vm_compute; discriminate).
  assert (H4 : maxMessageSize default_config < 2 ^ 53) by (vm_compute; reflexivity).
  assert (H5 : Z.of_nat (List.length (utf8_encode (send (Json.JStr [233])))) <=
               maxBufferSize default_config) by (vm_compute; discriminate).
  split; [tauto|]. apply send_non_ascii_waits; assumption.
Defined.

End TransportSendFacts.

(** ** Dispatch of client messages *)

Module ProxyDispatchFacts.
Import Json ProxyDispatch.

Lemma canExecute_refused now cb :
  fst (CB.canExecute now cb) = false -> CB.canExecute now cb = (false, cb).
Proof.
  unfold CB.canExecute. destruct (CB.state cb); try discriminate.
  destruct (CB.resetTimeout (CB.config cb) <=? now - CB.lastFailureTime cb); [discriminate|].
  reflexivity.
Qed.

(** A [tools/call] message without an [id] is not a request for
    [isRequest]: within the size limit and with the breaker admitting it,
    it is forwarded upstream as it is, without [handleToolCall] and so
    without any policy decision. *)
Theorem tools_call_without_id_forwarded maxMessageSize now cb mt props :
  js_get props (s2j "method") = Some (JStr (s2j "tools/call")) ->
  js_get props (s2j "id") = None ->
  utf16_len (stringify (JObj props)) <= maxMessageSize ->
  fst (CB.canExecute now cb) = true ->
  handleClientMessage maxMessageSize now cb mt (JObj props) =
  Some ([ForwardNotification (JObj props)], snd (CB.canExecute now cb),
        {| requestsTotal := requestsTotal mt + 1;
           circuitBreakerTrips := circuitBreakerTrips mt |}).
Proof.
  intros Hm Hi Hs Hc. unfold handleClientMessage.
  replace (maxMessageSize <? utf16_len (stringify (JObj props))) with false
    by (symmetry; apply Z.ltb_ge; exact Hs).
  destruct (CB.canExecute now cb) as [ok cb'] eqn:E. cbn [fst snd] in *. subst ok.
  cbn [negb isRequest]. rewrite Hm, Hi. reflexivity.
Qed.

(** A request whose [id] is falsy ([0] or the empty string) gets no
    error response when it is too large or the breaker refuses it: the
    message is dropped silently, and the breaker and the metrics are left
    as they were. *)
Theorem falsy_id_dropped_silently maxMessageSize now cb mt props m idv :
  js_get props (s2j "method") = Some m ->
  js_get props (s2j "id") = Some idv ->
  Shadowing.truthy idv = false ->
  maxMessageSize < utf16_len (stringify (JObj props)) \/ fst (CB.canExecute now cb) = false ->
  handleClientMessage maxMessageSize now cb mt (JObj props) = Some ([], cb, mt).
Proof.
  intros Hm Hi Ht Hc. unfold handleClientMessage.
  assert (Hr : request_with_id (JObj props) = Some None).
  { unfold request_with_id. cbn [isRequest msg_id]. rewrite Hm, Hi, Ht. reflexivity. }
  destruct (Z.ltb_spec maxMessageSize (utf16_len (stringify (JObj props)))) as [Hlt|Hge].
  - rewrite Hr. reflexivity.
  - destruct Hc as [Hc|Hc]; [lia|]. rewrite (canExecute_refused _ _ Hc).
    cbn [negb]. rewrite Hr. reflexivity.
Qed.

(** A message that is a JSON primitive (a number, string, boolean or
    [null]), which the transport delivers like any other parsed text,
    makes [handleClientMessage] throw: the [in] operator of [isRequest]
    is applied to it on every path. *)
Theorem primitive_message_throws maxMessageSize now cb mt msg :
  match msg with JObj _ | JArr _ => False | _ => True end ->
  handleClientMessage maxMessageSize now cb mt msg = None.
Proof.
  intros Hp. unfold handleClientMessage.
  assert (Hi : isRequest msg = None) by (destruct msg; try contradiction; reflexivity).
  assert (Hr : request_with_id msg = None) by (unfold request_with_id; rewrite Hi; reflexivity).
  destruct (maxMessageSize <? utf16_len (stringify msg)); [rewrite Hr; reflexivity|].
  destruct (CB.canExecute now cb) as [[|] cb']; cbn [negb];
    [rewrite Hi | rewrite Hr]; reflexivity.
Qed.

Lemma tools_call_without_id_forwarded_witness :
  let props := [(s2j "jsonrpc", JStr (s2j "2.0")); (s2j "method", JStr (s2j "tools/call"))] in
  (js_get props (s2j "method") = Some (JStr (s2j "tools/call")) /\
   js_get props (s2j "id") = None /\
   utf16_len (stringify (JObj props)) <= 1000 /\
   fst (CB.canExecute 0 (CB.create CB.default_config)) = true) /\
  handleClientMessage 1000 0 (CB.create CB.default_config)
    {| requestsTotal := 0; circuitBreakerTrips := 0 |} (JObj props) =
  Some ([ForwardNotification (JObj props)], snd (CB.canExecute 0 (CB.create CB.default_config)),
        {| requestsTotal := 0 + 1; circuitBreakerTrips := 0 |}).
Proof.
  cbv zeta. split; [vm_compute; repeat split; first [reflexivity | discriminate]|].
  apply (tools_call_without_id_forwarded 1000 0 (CB.create CB.default_config)
           {| requestsTotal := 0; circuitBreakerTrips := 0 |});
    vm_compute; first [reflexivity | discriminate].
Defined.

Lemma falsy_id_dropped_silently_witness :
  let props := [(s2j "method", JStr (s2j "tools/list")); (s2j "id", JNum 0)] in
  (js_get props (s2j "method") = Some (JStr (s2j "tools/list")) /\
   js_get props (s2j "id") = Some (JNum 0) /\
   Shadowing.truthy (JNum 0) = false /\
   (10 < utf16_len (stringify (JObj props)) \/
    fst (CB.canExecute 0 (CB.create CB.default_config)) = false)) /\
  handleClientMessage 10 0 (CB.create CB.default_config)
    {| requestsTotal := 0; circuitBreakerTrips := 0 |} (JObj props) =
  Some ([], CB.create CB.default_config, {| requestsTotal := 0; circuitBreakerTrips := 0 |}).
Proof.
  cbv zeta.
  assert (H : 10 < utf16_len (stringify (JObj [(s2j "method", JStr (s2j "tools/list"));
                                               (s2j "id", JNum 0)])) \/
              fst (CB.canExecute 0 (CB.create CB.default_config)) = false)
    by (left; vm_compute; reflexivity).
  split; [split; [reflexivity | split; [reflexivity | split; [reflexivity | exact H]]]|].
  apply (falsy_id_dropped_silently 10 0 (CB.create CB.default_config)
           {| requestsTotal := 0; circuitBreakerTrips := 0 |} _ (JStr (s2j "tools/list")) (JNum 0));
    first [reflexivity | exact H].
Defined.

Lemma primitive_message_throws_witness :
  True /\ handleClientMessage 1000 0 (CB.create CB.default_config)
            {| requestsTotal := 0; circuitBreakerTrips := 0 |} (JNum 42) = None.
Proof.
  split; [exact I|]. apply primitive_message_throws. exact I.
Defined.

End ProxyDispatchFacts.

(** ** Schema depth check *)

Module SchemaDepthFacts.
Import Json Shadowing SchemaDepth.

Lemma json_ind' (P : json -> Prop) :
  P JNull -> (forall b, P (JBool b)) -> (forall n, P (JNum n)) -> (forall s, P (JStr s)) ->
  (forall items, Forall P items -> P (JArr items)) ->
  (forall props, Forall (fun kv => P (snd kv)) props -> P (JObj props)) ->
  forall v, P v.
Proof.
  intros H0 H1 H2 H3 H4 H5. fix IH 1. intros v. destruct v as [| | | |items|props].
  - exact H0.
  - apply H1.
  - apply H2.
  - apply H3.
  - apply H4. induction items as [|it items IHl]; constructor; [apply IH | exact IHl].
  - apply H5. induction props as [|kv props IHl]; constructor; [apply IH | exact IHl].
Qed.

Lemma fold_left_max_shift l a x : fold_left Z.max l (Z.max a x) = Z.max x (fold_left Z.max l a).
Proof.
  revert a; induction l as [|y l IH]; intros a; simpl; [lia|].
  replace (Z.max (Z.max a x) y) with (Z.max (Z.max a y) x) by lia. apply IH.
Qed.

Lemma fold_left_max l a : fold_left Z.max l a = fold_right Z.max a l.
Proof.
  revert a; induction l as [|x l IH]; intros a; [reflexivity|].
  simpl. rewrite fold_left_max_shift, IH. reflexivity.
Qed.

(** The depths of the elements, each computed from [d + 1], folded with
    [Math.max] from [d]. *)
Lemma nesting_nonneg v : 0 <= nesting v.
Proof.
  induction v using json_ind'; cbn [nesting]; try lia.
  - clear H. induction items as [|it items IH]; cbn [fold_right map]; lia.
  - clear H. induction props as [|kv props IH]; cbn [fold_right map]; lia.
Qed.

Lemma fold_depths {A} (f : A -> json) (xs : list A) d :
  0 <= d <= 25 ->
  Forall (fun x => forall d', 0 <= d' <= 26 ->
                   getObjectDepth (f x) d' = Z.min (d' + nesting (f x)) 26) xs ->
  fold_left Z.max (map (fun x => getObjectDepth (f x) (d + 1)) xs) d =
  Z.min (d + fold_right Z.max 0 (map (fun x => 1 + nesting (f x)) xs)) 26.
Proof.
  intros Hd Hall. pose proof nesting_nonneg as Hn.
  rewrite fold_left_max.
  induction Hall as [|x xs Hx _ IH]; cbn [fold_right map]; [lia|].
  rewrite (Hx (d + 1)) by lia. pose proof (Hn (f x)).
  assert (0 <= fold_right Z.max 0 (map (fun x => 1 + nesting (f x)) xs)).
  { clear. induction xs; cbn [fold_right map]; lia. }
  lia.
Qed.

Lemma getObjectDepth_unfold v d :
  getObjectDepth v d =
  if 25 <? d then d else
  match v with
  | JArr items => fold_left Z.max (map (fun it => getObjectDepth it (d + 1)) items) d
  | JObj props => fold_left Z.max (map (fun kv => getObjectDepth (snd kv) (d + 1)) props) d
  | _ => d
  end.
Proof. destruct v; reflexivity. Qed.

Lemma getObjectDepth_nesting v :
  forall d, 0 <= d <= 26 -> getObjectDepth v d = Z.min (d + nesting v) 26.
Proof.
  induction v as [| | | |items IH|props IH] using json_ind'; intros d Hd;
    rewrite getObjectDepth_unfold;
    (destruct (Z.ltb_spec 25 d);
     [ match goal with |- _ = Z.min (_ + nesting ?v) 26 => pose proof (nesting_nonneg v) end;
       lia | ]); try (cbn [nesting]; lia).
  - exact (fold_depths (fun x : json => x) items d ltac:(lia) IH).
  - exact (fold_depths (fun kv : jstr * json => snd kv) props d ltac:(lia) IH).
Qed.

(** [validateTool] refuses a schema as too deep exactly when its nesting
    depth exceeds 20, and [getObjectDepth] from [0] is that depth capped
    at 26. *)
Theorem validateTool_depth_check sch :
  getObjectDepth sch 0 = Z.min (nesting sch) 26 /\
  (20 <? getObjectDepth sch 0) = (20 <? nesting sch).
Proof.
  rewrite (getObjectDepth_nesting sch 0) by lia. split; [reflexivity|].
  destruct (Z.ltb_spec 20 (Z.min (0 + nesting sch) 26));
    destruct (Z.ltb_spec 20 (nesting sch)); lia.
Qed.

End SchemaDepthFacts.

(** ** Signed webhook requests *)

Module WebhookSendFacts.
Import Webhook WebhookSend.

Lemma starts_with_prefix p r : starts_with (p ++ r) p = true.
Proof. induction p as [|x p IH]; [destruct r; reflexivity|]. simpl. rewrite Z.eqb_refl. exact IH. Qed.

(** A request signed by [doWebhookRequest] is accepted by
    [verifyWebhookSignatureDetailed] with the same secret, whatever the
    body; without a secret no header is sent, and the receiver reports a
    missing signature. *)
Theorem signed_request_verifies secret body :
  verifyWebhookSignatureDetailed body (signature_header secret body) secret =
  match secret with
  | [] => {| valid := false; reason := Some MissingSignature |}
  | _ => {| valid := true; reason := None |}
  end.
Proof.
  destruct secret as [|k secret']; [reflexivity|].
  set (secret := k :: secret').
  assert (Hs : signature_header secret body = Some (sha256_prefix ++ expected_sig body secret))
    by reflexivity.
  rewrite Hs. destruct (WebhookFacts.expected_sig_shape body secret) as [HL HF].
  set (e := expected_sig body secret) in *.
  assert (Hp : starts_with (sha256_prefix ++ e) sha256_prefix = true) by apply starts_with_prefix.
  assert (Hk : skipn 7 (sha256_prefix ++ e) = e) by reflexivity.
  assert (Hv : verifyWebhookSignature body (Some (sha256_prefix ++ e)) secret = true).
  { unfold verifyWebhookSignature. fold e.
    change (sha256_prefix ++ e) with (115 :: (skipn 1 sha256_prefix ++ e)).
    unfold secret. cbv iota. fold secret. fold e.
    change (115 :: skipn 1 sha256_prefix ++ e) with (sha256_prefix ++ e).
    rewrite Hp, Hk. apply (proj2 (WebhookFacts.provided_check_iff e e HL HF)). reflexivity. }
  unfold verifyWebhookSignatureDetailed.
  change (sha256_prefix ++ e) with (115 :: (skipn 1 sha256_prefix ++ e)).
  unfold secret. cbv iota. fold secret.
  change (115 :: skipn 1 sha256_prefix ++ e) with (sha256_prefix ++ e).
  rewrite Hp, Hv. reflexivity.
Qed.

End WebhookSendFacts.

(** ** Registration rate limit *)

Module RateLimitFacts.
Import RateLimit.

Lemma jstr_eqb_sound a b : jstr_eqb a b = true -> a = b.
Proof.
  revert b; induction a as [|x a IH]; intros [|y b] H; try discriminate; [reflexivity|].
  cbn [jstr_eqb] in H. apply andb_true_iff in H. destruct H as [H1 H2].
  apply Z.eqb_eq in H1. subst. f_equal. apply IH, H2.
Qed.

Lemma js_get_map_set {A} (m : list (jstr * A)) k v : Json.js_get (map_set m k v) k = Some v.
Proof.
  induction m as [|[k' v'] m IH]; cbn [map_set Json.js_get].
  - rewrite NormalizeFacts.jstr_eqb_refl. reflexivity.
  - destruct (jstr_eqb k k') eqn:E; cbn [Json.js_get].
    + apply jstr_eqb_sound in E. subst. rewrite NormalizeFacts.jstr_eqb_refl. reflexivity.
    + rewrite E. exact IH.
Qed.

Lemma run_in_window cfg server ts st c t0 :
  Json.js_get (windows st) server = Some {| count := c; windowStart := t0 |} ->
  Forall (fun t => t - t0 <= windowMs cfg) ts ->
  let a := Nat.min (List.length ts) (Z.to_nat (maxChecks cfg - c)) in
  fst (run_checks cfg server ts st) = repeat false a ++ repeat true (List.length ts - a) /\
  rateLimitViolations (snd (run_checks cfg server ts st)) =
    rateLimitViolations st + Z.of_nat (List.length ts - a).
Proof.
  intros Hg Hts. revert st c Hg.
  induction Hts as [|t ts Ht _ IH]; intros st c Hg; cbv zeta.
  - cbn. split; [reflexivity|lia].
  - cbn [run_checks]. unfold checkRateLimit. rewrite Hg. cbn [windowStart count].
    replace (windowMs cfg <? t - t0) with false by (symmetry; apply Z.ltb_ge; lia).
    destruct (Z.leb_spec (maxChecks cfg) c) as [Hle|Hlt].
    + (* refused; so is every later call *)
      destruct (IH {| windows := windows st; rateLimitViolations := rateLimitViolations st + 1 |}
                   c Hg) as [IH1 IH2].
      destruct (run_checks cfg server ts _) as [rs st2] eqn:E. cbn [fst snd] in *.
      replace (Z.to_nat (maxChecks cfg - c)) with O in * by lia.
      rewrite Nat.min_0_r in *. rewrite Nat.sub_0_r in *. cbn [List.length repeat app].
      split; [rewrite IH1; reflexivity|]. rewrite IH2. cbn [rateLimitViolations]. lia.
    + set (st1 := {| windows := map_set (windows st) server
                                 {| count := c + 1; windowStart := t0 |};
                     rateLimitViolations := rateLimitViolations st |}).
      destruct (IH st1 (c + 1) (js_get_map_set _ _ _)) as [IH1 IH2].
      destruct (run_checks cfg server ts st1) as [rs st2] eqn:E. cbn [fst snd] in *.
      replace (Z.to_nat (maxChecks cfg - c)) with (S (Z.to_nat (maxChecks cfg - (c + 1)))) by lia.
      cbn [List.length]. rewrite <- Nat.succ_min_distr. rewrite Nat.sub_succ.
      cbn [repeat app]. split; [rewrite IH1; reflexivity|]. rewrite IH2. reflexivity.
Qed.

(** Within one window of [windowMs] after the first call for a server
    without a window yet, [checkRateLimit] lets [max(1, maxChecks)] calls
    through and refuses every later one, counting each refusal as a
    violation. *)
Theorem rate_limit_in_window cfg server t0 ts st :
  Json.js_get (windows st) server = None ->
  0 <= windowMs cfg ->
  Forall (fun t => t - t0 <= windowMs cfg) ts ->
  let a := Nat.min (List.length ts) (Z.to_nat (maxChecks cfg - 1)) in
  fst (run_checks cfg server (t0 :: ts) st) = repeat false (S a) ++ repeat true (List.length ts - a) /\
  rateLimitViolations (snd (run_checks cfg server (t0 :: ts) st)) =
    rateLimitViolations st + Z.of_nat (List.length ts - a).
Proof.
  intros Hn Hw Hts. cbv zeta. cbn [run_checks]. unfold checkRateLimit. rewrite Hn.
  set (st1 := {| windows := map_set (windows st) server {| count := 1; windowStart := t0 |};
                 rateLimitViolations := rateLimitViolations st |}).
  destruct (run_in_window cfg server ts st1 1 t0 (js_get_map_set _ _ _) Hts) as [H1 H2].
  destruct (run_checks cfg server ts st1) as [rs st2]. cbn [fst snd] in *.
  split; [rewrite H1; reflexivity | exact H2].
Qed.

Lemma rate_limit_in_window_witness :
  let cfg := {| maxChecks := 2; windowMs := 100 |} in
  (Json.js_get (windows {| windows := []; rateLimitViolations := 0 |}) (s2j "fs") = None /\
   0 <= windowMs cfg /\ Forall (fun t => t - 0 <= windowMs cfg) [10; 20; 30]) /\
  (let a := Nat.min (List.length [10; 20; 30]) (Z.to_nat (maxChecks cfg - 1)) in
   fst (run_checks cfg (s2j "fs") (0 :: [10; 20; 30]) {| windows := []; rateLimitViolations := 0 |}) =
     repeat false (S a) ++ repeat true (List.length [10; 20; 30] - a) /\
   rateLimitViolations (snd (run_checks cfg (s2j "fs") (0 :: [10; 20; 30])
                              {| windows := []; rateLimitViolations := 0 |})) =
     rateLimitViolations {| windows := []; rateLimitViolations := 0 |} +
     Z.of_nat (List.length [10; 20; 30] - a)).
Proof.
  cbv zeta.
  assert (H1 : Json.js_get (windows {| windows := []; rateLimitViolations := 0 |}) (s2j "fs") = None)
    by reflexivity.
  assert (H2 : 0 <= windowMs {| maxChecks := 2; windowMs := 100 |}) by (vm_compute; discriminate).
  assert (H3 : Forall (fun t => t - 0 <= windowMs {| maxChecks := 2; windowMs := 100 |}) [10; 20; 30])
    by (repeat constructor; vm_compute; discriminate).
  split; [tauto|].
  exact (rate_limit_in_window {| maxChecks := 2; windowMs := 100 |} (s2j "fs") 0 [10; 20; 30]
           {| windows := []; rateLimitViolations := 0 |} H1 H2 H3).
Defined.

End RateLimitFacts.

(** ** Circuit breaker under consecutive failures *)

Module CBFailFacts.
Import CB.

Local Abbreviation failures ts b := (fold_left (fun b t => recordFailure t b) ts b).

Lemma recordFailure_config t b : config (recordFailure t b) = config b.
Proof.
  unfold recordFailure. destruct (state b); try reflexivity.
  destruct (failureThreshold (config b) <=? failureCount b + 1); reflexivity.
Qed.

Lemma failures_open ts b : state b = open_ -> state (failures ts b) = open_.
Proof.
  revert b; induction ts as [|t ts IH]; intros b H; [exact H|].
  cbn [fold_left]. apply IH. unfold recordFailure. rewrite H. reflexivity.
Qed.

Lemma failures_closed ts b :
  state b = closed -> ts <> [] ->
  (state (failures ts b) = open_ <->
   failureThreshold (config b) <= failureCount b + Z.of_nat (List.length ts)).
Proof.
  revert b; induction ts as [|t ts IH]; intros b Hs Hne; [congruence|].
  cbn [fold_left List.length].
  unfold recordFailure at 2. rewrite Hs.
  destruct (Z.leb_spec (failureThreshold (config b)) (failureCount b + 1)) as [Hle|Hgt].
  - rewrite failures_open by reflexivity. split; intros _; [lia | reflexivity].
  - destruct ts as [|t' ts'].
    + cbn [fold_left]. unfold with_state. cbn [state List.length]. split; intros H; [discriminate|lia].
    + rewrite IH by (reflexivity || discriminate). unfold with_state. cbn [failureCount config].
      cbn [List.length]. lia.
Qed.

(** From a closed breaker, a run of failures (with no success between
    them) opens it exactly when the failure counter reaches
    [failureThreshold]: from a fresh breaker, after [failureThreshold]
    failures and not before. *)
Theorem consecutive_failures_open b ts :
  state b = closed -> ts <> [] ->
  (state (fold_left (fun b t => recordFailure t b) ts b) = open_ <->
   failureThreshold (config b) <= failureCount b + Z.of_nat (List.length ts)).
Proof. exact (failures_closed ts b). Qed.

Lemma consecutive_failures_open_witness :
  (state (create default_config) = closed /\ [1; 2; 3; 4; 5] <> []) /\
  (state (fold_left (fun b t => recordFailure t b) [1; 2; 3; 4; 5] (create default_config)) = open_ <->
   failureThreshold (config (create default_config)) <=
     failureCount (create default_config) + Z.of_nat (List.length [1; 2; 3; 4; 5])).
Proof.
  split; [split; [reflexivity | discriminate]|].
  apply consecutive_failures_open; [reflexivity | discriminate].
Defined.

End CBFailFacts.

(** ** Numeric entities out of range *)

Module EntityFacts.
Import Normalize NormalizeFacts.

Local Abbreviation safe := (fun c : Z => 0 <= c < 128 /\ c <> 37 /\ c <> 38 /\ c <> 43).

Lemma strip_safe l s :
  Forall (fun x => 128 <= x) l -> Forall (fun c => 0 <= c < 128) s -> strip l s = s.
Proof.
  intros Hl. induction 1 as [|c s Hc _ IH]; [reflexivity|].
  unfold strip in *. simpl. rewrite mem_high; [| exact Hl | lia].
  simpl. rewrite IH. reflexivity.
Qed.

Lemma decode_safe f s : Forall (fun c => c <> 37 /\ c <> 43) s -> decodeURIComponent f s = Some s.
Proof.
  revert s. induction f as [|f IH]; intros s Hs; [reflexivity|].
  destruct s as [|c s]; [reflexivity|].
  inversion Hs as [|? ? Hc Hs']; subst.
  rewrite decode_step_other by lia. rewrite IH by exact Hs'. reflexivity.
Qed.

Lemma url_rounds_safe n s : Forall (fun c => c <> 37 /\ c <> 43) s -> url_rounds n s = s.
Proof.
  intros Hs. destruct n as [|n]; [reflexivity|]. simpl.
  rewrite replace_char_absent.
  - rewrite decode_safe by exact Hs. rewrite jstr_eqb_refl. reflexivity.
  - intros Hin. rewrite Forall_forall in Hs. apply Hs in Hin. lia.
Qed.

Lemma replace_ci_safe f entity rep s :
  hd 0 entity = 38 -> Forall safe s -> replace_ci f entity rep s = s.
Proof.
  intros He. revert s. induction f as [|f IH]; intros s Hs; [reflexivity|].
  destruct s as [|c s]; [reflexivity|].
  inversion Hs as [|? ? Hc Hs']; subst.
  destruct entity as [|x entity']; [discriminate|]. simpl in He. subst x.
  simpl. unfold Transport.lower_ascii at 2. simpl.
  destruct (Z.eqb_spec (Transport.lower_ascii c) 38) as [E|E].
  - apply lower_ascii_38 in E. lia.
  - rewrite IH by exact Hs'. reflexivity.
Qed.

Lemma numeric_safe hex f s : Forall safe s -> replace_numeric hex f s = Some s.
Proof.
  revert s. induction f as [|f IH]; intros s Hs; [reflexivity|].
  destruct s as [|c s]; [reflexivity|].
  inversion Hs as [|? ? Hc Hs']; subst.
  rewrite numeric_step_other by lia. rewrite IH by exact Hs'. reflexivity.
Qed.

Lemma digit_range c : Json.is_digit c = true -> 48 <= c <= 57.
Proof. unfold Json.is_digit. rewrite andb_true_iff, !Z.leb_le. lia. Qed.

Lemma lower_ascii_digit c : 48 <= c <= 59 -> Transport.lower_ascii c = c.
Proof.
  intros H. unfold Transport.lower_ascii.
  destruct (Z.leb_spec 65 c); [lia|reflexivity].
Qed.

(** Matching [p;] case-insensitively at the head of [ds;], both digit
    strings, only succeeds when they are equal. *)
Lemma ci_prefix_digits ds p r :
  Forall (fun c => Json.is_digit c = true) ds -> Forall (fun c => Json.is_digit c = true) p ->
  Transport.ci_prefix (ds ++ [59]) (p ++ [59]) = Some r -> ds = p.
Proof.
  intros Hd. revert p. induction Hd as [|d ds Hd0 _ IH]; intros p Hp H.
  - destruct p as [|x p]; [reflexivity|]. inversion Hp as [|? ? Hx _]; subst.
    apply digit_range in Hx. cbn [app Transport.ci_prefix] in H.
    rewrite (lower_ascii_digit 59), (lower_ascii_digit x) in H by lia.
    destruct (Z.eqb_spec 59 x); [lia|discriminate].
  - apply digit_range in Hd0. destruct p as [|x p].
    + cbn [app Transport.ci_prefix] in H.
      rewrite (lower_ascii_digit 59), (lower_ascii_digit d) in H by lia.
      destruct (Z.eqb_spec d 59); [lia|discriminate].
    + inversion Hp as [|? ? Hx Hp']; subst. apply digit_range in Hx.
      cbn [app Transport.ci_prefix] in H.
      rewrite (lower_ascii_digit x), (lower_ascii_digit d) in H by lia.
      destruct (Z.eqb_spec d x); [|discriminate]. subst. f_equal. exact (IH p Hp' H).
Qed.

Lemma take_while_digits ds r :
  Forall (fun c => Json.is_digit c = true) ds -> Json.is_digit (hd 0 r) = false ->
  take_while Json.is_digit (ds ++ r) = (ds, r).
Proof.
  intros Hd Hr. induction Hd as [|d ds Hd0 _ IH].
  - destruct r as [|c r]; [reflexivity|]. simpl in Hr |- *. rewrite Hr. reflexivity.
  - simpl. rewrite Hd0, IH. reflexivity.
Qed.

Lemma entities_none ents s :
  Forall (fun er => hd 0 (fst er) = 38 /\ Transport.ci_prefix (38 :: s) (fst er) = None) ents ->
  Forall safe s ->
  fold_left (fun acc er => replace_ci (S (List.length acc)) (fst er) (snd er) acc)
            ents (38 :: s) = 38 :: s.
Proof.
  intros He Hs. induction He as [|[e r] ents [Hh Hn] _ IH]; [reflexivity|].
  cbn [fold_left fst snd] in *.
  replace (replace_ci (S (List.length (38 :: s))) e r (38 :: s)) with (38 :: s); [exact IH|].
  destruct e as [|x e]; [discriminate|]. cbn [hd] in Hh. subst x.
  cbn [replace_ci]. rewrite Hn. rewrite replace_ci_safe by (reflexivity || exact Hs).
  reflexivity.
Qed.

Lemma html_entities_miss ds :
  ds <> [] -> Forall (fun c => Json.is_digit c = true) ds -> 1114111 < Json.digits_value 0 ds ->
  Forall (fun er => hd 0 (fst er) = 38 /\ Transport.ci_prefix (38 :: 35 :: ds ++ [59]) (fst er) = None)
         htmlEntities.
Proof.
  intros Hne Hd Hv.
  assert (Hnum : forall p, Forall (fun c => Json.is_digit c = true) p -> Json.digits_value 0 p <= 1114111 ->
            Transport.ci_prefix (ds ++ [59]) (p ++ [59]) = None).
  { intros p Hp Hpv. destruct (Transport.ci_prefix (ds ++ [59]) (p ++ [59])) eqn:E; [|reflexivity].
    apply ci_prefix_digits in E; [subst; lia | exact Hd | exact Hp]. }
  assert (Hx : forall t, Transport.ci_prefix (ds ++ [59]) (120 :: t) = None).
  { intros t. destruct ds as [|d ds']; [congruence|]. inversion Hd as [|? ? Hd0 _]; subst.
    apply digit_range in Hd0. cbn [app Transport.ci_prefix].
    rewrite (lower_ascii_digit d) by lia. destruct (Z.eqb_spec d (Transport.lower_ascii 120)).
    - unfold Transport.lower_ascii in e. simpl in e. lia.
    - reflexivity. }
  unfold htmlEntities.
  repeat constructor; cbn [fst hd s2j]; try reflexivity.
  - apply (Hnum (s2j "39")); [repeat constructor | vm_compute; congruence].
  - apply Hx.
  - apply Hx.
  - apply Hx.
  - apply (Hnum (s2j "8203")); [repeat constructor | vm_compute; congruence].
Qed.

Lemma numeric_hex_skip f d rest :
  48 <= d <= 57 ->
  replace_numeric true (S f) (38 :: 35 :: d :: rest) =
    match replace_numeric true f (35 :: d :: rest) with Some r => Some (38 :: r) | None => None end.
Proof.
  intros H. cbn [replace_numeric].
  replace ((d =? 120) || (d =? 88)) with false; [reflexivity|].
  symmetry. apply orb_false_iff. split; apply Z.eqb_neq; lia.
Qed.

Lemma numeric_dec_range f ds :
  ds <> [] -> Forall (fun c => Json.is_digit c = true) ds -> 1114111 < Json.digits_value 0 ds ->
  replace_numeric false (S f) (38 :: 35 :: ds ++ [59]) = None.
Proof.
  intros Hne Hd Hv. cbn [replace_numeric].
  rewrite take_while_digits by (exact Hd || reflexivity).
  destruct ds as [|d ds']; [congruence|].
  unfold entity_char. replace (1114111 <? Json.digits_value 0 (d :: ds')) with true
    by (symmetry; apply Z.ltb_lt; exact Hv).
  reflexivity.
Qed.



End EntityFacts.
